(** * graphenebase.transactions: wire codecs, object ids and the signer

    A shallow embedding of [graphenebase/transactions.py] (Python 3).

    Conventions of the embedding
    - a Python [int] is a [Z]; a [bytes] object is a [bytestr], a list of
      integers in [0, 256); a [str] is a [text], the list of its Unicode
      code points;
    - a call that can raise returns a [result]: [Ok v] or [Raise e];
    - dictionary keys, class names and chain names are Rocq strings. *)

From Stdlib Require Import ZArith List String Ascii Bool Lia DecimalString.
Import ListNotations.
Open Scope string_scope.
Open Scope Z_scope.
Open Scope list_scope.

Set Warnings "-register-all".

(** ** Exceptions and results *)

Inductive exn : Type :=
| TypeError
| ValueError
| KeyError
| IndexError
| AssertionError
| AttributeError
| StructError            (* struct.error *)
| BinasciiError          (* binascii.Error *)
| UnicodeEncodeError
| JSONDecodeError
| Exception (msg : string)
| LibraryError (origin : string).

Inductive result (A : Type) : Type :=
| Ok (a : A)
| Raise (e : exn).

Arguments Ok {A} a.
Arguments Raise {A} e.

Definition bind {A B : Type} (m : result A) (k : A -> result B) : result B :=
  match m with
  | Ok a => k a
  | Raise e => Raise e
  end.

Declare Scope result_scope.
Delimit Scope result_scope with result.
Notation "x <- m ;; k" := (bind m (fun x => k))
  (at level 61, m at next level, right associativity) : result_scope.
Notation "' p <- m ;; k" := (bind m (fun x => match x with p => k end))
  (at level 61, p pattern, m at next level, right associativity) : result_scope.
Open Scope result_scope.

Definition is_ok {A : Type} (m : result A) : bool :=
  match m with Ok _ => true | Raise _ => false end.

(** A call into a library outside the module: [None] stands for any
    exception of that library, recorded as [LibraryError origin]. *)
Definition ext {A : Type} (origin : string) (m : option A) : result A :=
  match m with
  | Some a => Ok a
  | None => Raise (LibraryError origin)
  end.

(** ** Bytes and text *)

Definition bytestr := list Z.
Definition text := list Z.

Definition len {A : Type} (l : list A) : Z := Z.of_nat (List.length l).

Definition is_byte (b : Z) : bool := (0 <=? b) && (b <? 256).

(** [bytes([b0, b1, ...])]: every element must be in [range(0, 256)]. *)
Definition bytes_of_ints (l : list Z) : result bytestr :=
  if forallb is_byte l then Ok l else Raise ValueError.

(** The code points of an ASCII literal. *)
Fixpoint lit (s : string) : text :=
  match s with
  | EmptyString => []
  | String.String c r => Z.of_nat (nat_of_ascii c) :: lit r
  end.

(** [bytes(s, 'utf-8')] on one code point; lone surrogates are refused. *)
Definition utf8_char (c : Z) : result bytestr :=
  if c <? 0 then Raise ValueError
  else if c <? 128 then Ok [c]
  else if c <? 2048 then
    Ok [Z.lor 192 (Z.shiftr c 6); Z.lor 128 (Z.land c 63)]
  else if c <? 65536 then
    if (55296 <=? c) && (c <=? 57343) then Raise UnicodeEncodeError
    else Ok [Z.lor 224 (Z.shiftr c 12);
             Z.lor 128 (Z.land (Z.shiftr c 6) 63);
             Z.lor 128 (Z.land c 63)]
  else if c <? 1114112 then
    Ok [Z.lor 240 (Z.shiftr c 18);
        Z.lor 128 (Z.land (Z.shiftr c 12) 63);
        Z.lor 128 (Z.land (Z.shiftr c 6) 63);
        Z.lor 128 (Z.land c 63)]
  else Raise ValueError.

Fixpoint utf8 (s : text) : result bytestr :=
  match s with
  | [] => Ok []
  | c :: r => b <- utf8_char c ;; t <- utf8 r ;; Ok (b ++ t)
  end.

(** ** Registries *)

Fixpoint lookup {V : Type} (k : string) (d : list (string * V)) : option V :=
  match d with
  | [] => None
  | (k', v) :: r => if String.eqb k k' then Some v else lookup k r
  end.

Definition object_type : list (string * Z) :=
  [ ("null", 0); ("base", 1); ("account", 2); ("asset", 3);
    ("force_settlement", 4); ("committee_member", 5); ("witness", 6);
    ("limit_order", 7); ("call_order", 8); ("custom", 9); ("proposal", 10);
    ("operation_history", 11); ("withdraw_permission", 12);
    ("vesting_balance", 13); ("worker", 14); ("balance", 15);
    ("OBJECT_TYPE_COUNT", 16) ].

Definition operations : list (string * Z) :=
  [ ("transfer", 0); ("limit_order_create", 1); ("limit_order_cancel", 2);
    ("call_order_update", 3); ("fill_order", 4); ("account_create", 5);
    ("account_update", 6); ("account_whitelist", 7); ("account_upgrade", 8);
    ("account_transfer", 9); ("asset_create", 10); ("asset_update", 11);
    ("asset_update_bitasset", 12); ("asset_update_feed_producers", 13);
    ("asset_issue", 14); ("asset_reserve", 15); ("asset_fund_fee_pool", 16);
    ("asset_settle", 17); ("asset_global_settle", 18);
    ("asset_publish_feed", 19); ("witness_create", 20);
    ("witness_update", 21); ("proposal_create", 22); ("proposal_update", 23);
    ("proposal_delete", 24); ("withdraw_permission_create", 25);
    ("withdraw_permission_update", 26); ("withdraw_permission_claim", 27);
    ("withdraw_permission_delete", 28); ("committee_member_create", 29);
    ("committee_member_update", 30);
    ("committee_member_update_global_parameters", 31);
    ("vesting_balance_create", 32); ("vesting_balance_withdraw", 33);
    ("worker_create", 34); ("custom", 35); ("assert", 36);
    ("balance_claim", 37); ("override_transfer", 38);
    ("transfer_to_blind", 39); ("blind_transfer", 40);
    ("transfer_from_blind", 41); ("asset_settle_cancel", 42);
    ("asset_claim_fees", 43) ].

Definition known_chains : list (string * list (string * text)) :=
  [ ("BTS", [ ("chain_id", lit ""); ("core_symbol", lit "");
              ("prefix", lit "") ]);
    ("GPH", [ ("chain_id",
               lit "b8d1603965b3eb1acba27e62ff59f74efa3154d43a4188d381088ac7cdf35539");
              ("core_symbol", lit "CORE"); ("prefix", lit "GPH") ]) ].

(** ** Varint *)

(** The loop of [varint]: [fuel] bounds the iterations of [while n >= 0x80].
    The byte pushed inside the loop is always in [128, 256); the last
    [bytes([n])] refuses a negative [n]. *)
Fixpoint varint_loop (fuel : nat) (n : Z) (data : bytestr) : result bytestr :=
  match fuel with
  | S k =>
      if 128 <=? n
      then varint_loop k (Z.shiftr n 7) (data ++ [Z.lor (Z.land n 127) 128])
      else b <- bytes_of_ints [n] ;; Ok (data ++ b)
  | O => b <- bytes_of_ints [n] ;; Ok (data ++ b)
  end.

(** Each iteration removes seven bits, so [log2 n] iterations are enough
    (see [varint_unfold]). *)
Definition varint (n : Z) : result bytestr :=
  varint_loop (Z.to_nat (Z.log2 n)) n [].

(** What iterating over a Python sequence yields: iterating a [bytes] object
    gives integers, iterating a [str] gives one-character strings. *)
Inductive pyseq : Type :=
| PyBytes (b : bytestr)
| PyStr (s : text).

Inductive item : Type :=
| IntItem (n : Z)
| CharItem (c : Z).

Definition items (data : pyseq) : list item :=
  match data with
  | PyBytes b => map IntItem b
  | PyStr s => map CharItem s
  end.

(** [ord(c)] accepts a string of length one and nothing else. *)
Definition ord (c : item) : result Z :=
  match c with
  | CharItem c => Ok c
  | IntItem _ => Raise TypeError
  end.

Fixpoint varintdecode_loop (cs : list item) (shift res : Z) : result Z :=
  match cs with
  | [] => Ok res
  | c :: rest =>
      b <- ord c ;;
      let res := Z.lor res (Z.shiftl (Z.land b 127) shift) in
      if Z.land b 128 =? 0 then Ok res
      else varintdecode_loop rest (shift + 7) res
  end.

Definition varintdecode (data : pyseq) : result Z :=
  varintdecode_loop (items data) 0 0.

(** [variable_buffer(s)] on a [bytes] argument. *)
Definition variable_buffer (s : bytestr) : result bytestr :=
  l <- varint (len s) ;; Ok (l ++ s).

(** ** [struct.pack] with the little-endian formats the module uses *)

Fixpoint le_bytes (w : nat) (n : Z) : bytestr :=
  match w with
  | O => []
  | S k => n mod 256 :: le_bytes k (n / 256)
  end.

Inductive fmt : Type := fmt_B | fmt_H | fmt_I | fmt_Q | fmt_q.

(** [struct.pack(fmt, d)] raises [struct.error] when [d] does not fit. *)
Definition struct_pack (f : fmt) (d : Z) : result bytestr :=
  match f with
  | fmt_B => if (0 <=? d) && (d <? 2 ^ 8) then Ok (le_bytes 1 d)
             else Raise StructError
  | fmt_H => if (0 <=? d) && (d <? 2 ^ 16) then Ok (le_bytes 2 d)
             else Raise StructError
  | fmt_I => if (0 <=? d) && (d <? 2 ^ 32) then Ok (le_bytes 4 d)
             else Raise StructError
  | fmt_Q => if (0 <=? d) && (d <? 2 ^ 64) then Ok (le_bytes 8 d)
             else Raise StructError
  | fmt_q => if (- 2 ^ 63 <=? d) && (d <? 2 ^ 63)
             then Ok (le_bytes 8 (d mod 2 ^ 64))
             else Raise StructError
  end.

(** ** The values a field can hold *)

(** One constructor per class of the module, plus [None], a raw [str] and
    the imported [PublicKey], whose wire bytes and text come from
    [graphenebase.account].  [Array_obj], [Set_obj], [Bytes_obj], [Id_obj],
    [Operation_obj] and [ObjectId_obj] carry the attributes their
    [__init__] computes; the functions [Array], [Set_], [Bytes], [Id],
    [Operation] and [ObjectId] below are those [__init__]. *)
Inductive value : Type :=
| PyNone
| PyText (s : text)
| Uint8 (d : Z)
| Uint16 (d : Z)
| Uint32 (d : Z)
| Uint64 (d : Z)
| Varint32 (d : Z)
| Int64 (d : Z)
| String (d : text)
| Bytes_obj (d : text) (length : Z)
| Void
| Array_obj (d : list value) (length : value)
| PointInTime (d : text)
| Signature (d : bytestr)
| Bool (d : Z)
| Set_obj (d : list value) (length : value)
| Optional (d : value)
| Static_variant (d : value) (type_id : Z)
| Id_obj (d : value)
| Operation_obj (op : value) (name : string) (opId : Z)
| GrapheneObject (cls : string) (data : option (list (string * value)))
| ObjectId_obj (space type : Z) (instance : value) (Id : text)
| PublicKey_obj (wire : bytestr) (repr : text).

Definition Bytes (d : text) (length : option Z) : value :=
  match length with
  | Some l => if l =? 0 then Bytes_obj d (len d) else Bytes_obj d l
  | None => Bytes_obj d (len d)
  end.

Definition Array (d : list value) : value := Array_obj d (Varint32 (len d)).

Definition Set_ (d : list value) : value := Set_obj d (Varint32 (len d)).

Definition Id (d : Z) : value := Id_obj (Varint32 d).





(** [bool(v)]: [None] and the empty [str] are false; no class of the module
    defines [__bool__] or [__len__], so every instance is true. *)
Definition truthy (v : value) : bool :=
  match v with
  | PyNone => false
  | PyText [] => false
  | _ => true
  end.

(** [isinstance(v, str)] *)
Definition is_str (v : value) : bool :=
  match v with PyText _ => true | _ => false end.

(** [isinstance(v, Optional)] *)
Definition is_Optional (v : value) : bool :=
  match v with Optional _ => true | _ => false end.

(** [Optional.isempty] returns [bool(self.data)]. *)
Definition isempty (d : value) : bool := truthy d.

Definition nonempty {A : Type} (l : list A) : bool :=
  match l with [] => false | _ :: _ => true end.

(** ** Wire encoding *)

Section Wire.

(** [timegm(time.strptime(s, '%Y-%m-%dT%H:%M:%S%Z'))], from the standard
    library. *)
Variable timegm_strptime : text -> option Z.

(** [bytes(v)]: the [__bytes__] method of the class of [v]; [bytes(None)]
    and [bytes(s)] on a [str] without an encoding raise [TypeError]. *)
Fixpoint bytes (v : value) : result bytestr :=
  match v with
  | PyNone => Raise TypeError
  | PyText _ => Raise TypeError
  | Uint8 d => struct_pack fmt_B d
  | Uint16 d => struct_pack fmt_H d
  | Uint32 d => struct_pack fmt_I d
  | Uint64 d => struct_pack fmt_Q d
  | Varint32 d => varint d
  | Int64 d => struct_pack fmt_q d
  | String d => l <- varint (len d) ;; b <- utf8 d ;; Ok (l ++ b)
  | Bytes_obj d length => l <- varint length ;; b <- utf8 d ;; Ok (l ++ b)
  | Void => Ok []
  | Array_obj d length | Set_obj d length =>
      l <- bytes length ;;
      b <- (fix join (xs : list value) : result bytestr :=
              match xs with
              | [] => Ok []
              | a :: r => x <- bytes a ;; y <- join r ;; Ok (x ++ y)
              end) d ;;
      Ok (l ++ b)
  | PointInTime d =>
      t <- ext "time" (timegm_strptime (d ++ lit "UTC")) ;;
      struct_pack fmt_I t
  | Signature d => Ok d
  | Bool d => struct_pack fmt_B d
  | Optional d =>
      c <- bytes d ;;
      if nonempty c
      then one <- struct_pack fmt_B 1 ;; b <- bytes d ;; Ok (one ++ b)
      else struct_pack fmt_B 0
  | Static_variant d type_id =>
      l <- varint type_id ;; b <- bytes d ;; Ok (l ++ b)
  | Id_obj d => bytes d
  | Operation_obj op _ opId =>
      i <- varint opId ;; b <- bytes op ;; Ok (i ++ b)
  | GrapheneObject _ data =>
      match data with
      | None => Ok []
      | Some fields =>
          (fix loop (fs : list (string * value)) (b : bytestr)
             : result bytestr :=
             match fs with
             | [] => Ok b
             | (name, value) :: r =>
                 x <- match value with
                      | PyText s => utf8 s
                      | _ => bytes value
                      end ;;
                 loop r (b ++ x)
             end) fields []
      end
  | ObjectId_obj _ _ instance _ => bytes instance
  | PublicKey_obj wire _ => Ok wire
  end.

(** The element loop of [Array.__bytes__]. *)
Fixpoint join (xs : list value) : result bytestr :=
  match xs with
  | [] => Ok []
  | a :: r => x <- bytes a ;; y <- join r ;; Ok (x ++ y)
  end.

(** One field of [GrapheneObject.__bytes__]. *)
Definition field_bytes (value : value) : result bytestr :=
  match value with
  | PyText s => utf8 s
  | _ => bytes value
  end.

(** The field loop of [GrapheneObject.__bytes__]. *)
Fixpoint fields_bytes (fs : list (string * value)) (b : bytestr)
  : result bytestr :=
  match fs with
  | [] => Ok b
  | (name, value) :: r => x <- field_bytes value ;; fields_bytes r (b ++ x)
  end.

End Wire.

(** ** Object ids *)

(** [int(s)] on a [str], as CPython 3.11 computes it
    ([PyLong_FromUnicodeObject] with base 10).  A text that is not ASCII is
    first brought to ASCII: a Unicode white space becomes a blank, a Unicode
    decimal digit becomes its ASCII digit, and the text is cut after the
    first other character beyond ASCII, which becomes a question mark.
    The ASCII text is then read by [PyLong_FromString]: white space of the
    C locale, an optional sign, decimal digits with single underscores
    allowed between digits, white space, and nothing more.  A literal of
    more digits than the interpreter's limit is refused.  Every failure is
    a [ValueError]. *)

(** [Py_ISSPACE]: the white space of the C locale. *)
Definition is_space (c : Z) : bool :=
  ((9 <=? c) && (c <=? 13)) || (c =? 32).

Definition is_digit (c : Z) : bool := (48 <=? c) && (c <=? 57).

(** [Py_UNICODE_ISSPACE] beyond ASCII (Unicode 14.0). *)
Definition unicode_space (c : Z) : bool :=
  existsb (Z.eqb c) [133; 160; 5760; 8232; 8233; 8239; 8287; 12288]
  || ((8192 <=? c) && (c <=? 8202)).

(** The zeros of the decimal digits beyond ASCII (Unicode 14.0): each is
    followed by the digits one to nine of its script. *)
Definition decimal_zeros : list Z :=
  [
    1632; 1776; 1984; 2406; 2534; 2662; 2790; 2918; 3046; 3174; 3302; 3430;
    3558; 3664; 3792; 3872; 4160; 4240; 6112; 6160; 6470; 6608; 6784; 6800;
    6992; 7088; 7232; 7248; 42528; 43216; 43264; 43472; 43504; 43600;
    44016; 65296; 66720; 68912; 69734; 69872; 69942; 70096; 70384; 70736;
    70864; 71248; 71360; 71472; 71904; 72016; 72784; 73040; 73120; 92768;
    92864; 93008; 120782; 120792; 120802; 120812; 120822; 123200; 123632;
    125264; 130032 ].

(** [Py_UNICODE_TODECIMAL] beyond ASCII. *)
Definition unicode_decimal (c : Z) : option Z :=
  match find (fun z => (z <=? c) && (c <? z + 10)) decimal_zeros with
  | Some z => Some (c - z)
  | None => None
  end.

(** The loop of [_PyUnicode_TransformDecimalAndSpaceToASCII]. *)
Fixpoint to_ascii (s : text) : text :=
  match s with
  | [] => []
  | c :: r =>
      if c <? 127 then c :: to_ascii r
      else if unicode_space c then 32 :: to_ascii r
      else
        match unicode_decimal c with
        | Some d => 48 + d :: to_ascii r
        | None => [63]
        end
  end.

(** An ASCII text is returned as it is. *)
Definition transform (s : text) : text :=
  if forallb (fun c => c <? 128) s then s else to_ascii s.

Fixpoint lstrip (s : text) : text :=
  match s with
  | c :: r => if is_space c then lstrip r else s
  | [] => []
  end.

(** [sys.get_int_max_str_digits()] and the length below which the limit
    is not looked at. *)
Definition max_str_digits : Z := 4300.
Definition str_digits_check_threshold : Z := 640.

(** The scan of the digits and underscores: the value read, the number of
    digits and what is left, or nothing when two underscores follow each
    other or an underscore comes last.  [prev] is the character before. *)
Fixpoint scan_digits (s : text) (acc digits prev : Z)
  : option (Z * Z * text) :=
  match s with
  | c :: r =>
      if is_digit c then scan_digits r (10 * acc + (c - 48)) (digits + 1) c
      else if c =? 95 then
        if prev =? 95 then None else scan_digits r acc digits c
      else if prev =? 95 then None
      else Some (acc, digits, s)
  | [] => if prev =? 95 then None else Some (acc, digits, [])
  end.

(** [PyLong_FromString(s, &end, 10)], with the test that [end] is the end
    of the text. *)
Definition PyLong_FromString (s : text) : result Z :=
  let s := lstrip s in
  let signed :=
    match s with
    | c :: r =>
        if c =? 43 then (1, r) else if c =? 45 then (-1, r) else (1, s)
    | [] => (1, s)
    end in
  let sign := fst signed in
  let s := snd signed in
  if match s with c :: _ => c =? 95 | [] => false end then Raise ValueError
  else
    match scan_digits s 0 0 0 with
    | None => Raise ValueError
    | Some (v, digits, rest) =>
        if (str_digits_check_threshold <? digits)
           && (0 <? max_str_digits) && (max_str_digits <? digits)
        then Raise ValueError
        else if digits =? 0 then Raise ValueError
        else
          match lstrip rest with
          | [] => Ok (sign * v)
          | _ :: _ => Raise ValueError
          end
    end.

Definition py_int (s : text) : result Z := PyLong_FromString (transform s).

(** [s.split(".")] *)
Fixpoint split_dot (s : text) (cur : text) : list text :=
  match s with
  | [] => [rev cur]
  | c :: r =>
      if c =? 46 then rev cur :: split_dot r [] else split_dot r (c :: cur)
  end.

Definition split (s : text) : list text := split_dot s [].

(** [ObjectId.__init__(object_str, type_verify=None)].  [type_verify] is
    checked only when it is given and not the empty string. *)
Definition ObjectId (object_str : text) (type_verify : option string)
  : result value :=
  match split object_str with
  | [space; type; id] =>
      space' <- py_int space ;;
      type' <- py_int type ;;
      id' <- py_int id ;;
      let self := ObjectId_obj space' type' (Id id') object_str in
      match type_verify with
      | None | Some EmptyString => Ok self
      | Some tv =>
          match lookup tv object_type with
          | None => Raise KeyError
          | Some t => if t =? type' then Ok self else Raise AssertionError
          end
      end
  | _ => Raise (Exception "Object id is invalid")
  end.

(** ** [binascii.unhexlify] on a [str] *)

Definition hex_digit (c : Z) : option Z :=
  if is_digit c then Some (c - 48)
  else if (97 <=? c) && (c <=? 102) then Some (c - 87)
  else if (65 <=? c) && (c <=? 70) then Some (c - 55)
  else None.

Fixpoint unhexlify_pairs (s : text) : result bytestr :=
  match s with
  | [] => Ok []
  | [_] => Raise BinasciiError
  | h :: l :: r =>
      match hex_digit h, hex_digit l with
      | Some a, Some b => t <- unhexlify_pairs r ;; Ok (16 * a + b :: t)
      | _, _ => Raise BinasciiError
      end
  end.

(** A [str] argument must be ASCII ([ValueError] otherwise); an odd length
    or a character that is no hexadecimal digit raises [binascii.Error]. *)
Definition unhexlify (s : text) : result bytestr :=
  if forallb (fun c => c <? 128) s then unhexlify_pairs s
  else Raise ValueError.

(** ** Composite objects *)

(** The chain argument of [sign] and [Memo]: a [str], a [dict] or any other
    object. *)
Inductive chain_arg : Type :=
| ChainName (name : string)
| ChainDict (params : list (string * text))
| ChainOther.

Definition default_chain : chain_arg := ChainName "BTS".

Section Objects.

(** [PublicKey(key, prefix=prefix)] of [graphenebase.account]: the wire
    bytes and the text of the key, or an exception. *)
Variable PublicKey : text -> text -> option (bytestr * text).

Definition Asset (_amount : Z) (_asset_id : text) : result value :=
  asset_id <- ObjectId _asset_id (Some "asset") ;;
  Ok (GrapheneObject "Asset"
        (Some [ ("amount", Int64 _amount); ("asset_id", asset_id) ])).


(** [Transfer.__init__]; the default of [_memo] is [None]. *)
Definition Transfer (_feeObj : value) (_from _to : text)
           (_amountObj : value) (_memo : value) : result value :=
  from <- ObjectId _from (Some "account") ;;
  to <- ObjectId _to (Some "account") ;;
  Ok (GrapheneObject "Transfer"
        (Some [ ("fee", _feeObj);
                ("from", from);
                ("to", to);
                ("amount", _amountObj);
                ("memo", Optional _memo);
                ("extensions", Set_ []) ])).

(** The [OrderedDict] that [Signed_Transaction.__init__] builds. *)
Definition Signed_Transaction_data (refNum refPrefix : Z)
           (expiration : text) (operations : list value)
  : list (string * value) :=
  [ ("ref_block_num", Uint16 refNum);
    ("ref_block_prefix", Uint32 refPrefix);
    ("expiration", PointInTime expiration);
    ("operations", Array operations);
    ("extensions", Set_ []);
    ("signatures", Void) ].

End Objects.

(** ** JSON rendering *)

(** What [json.loads] returns and [json.dumps] accepts. *)
Inductive json : Type :=
| JNull
| JBool (b : bool)
| JNum (n : Z)
| JString (s : text)
| JArray (l : list json)
| JObject (l : list (string * json)).

Definition hex_char (d : Z) : Z := if d <? 10 then 48 + d else 87 + d.

(** [hexlify(b).decode('ascii')] *)
Fixpoint hexlify (b : bytestr) : text :=
  match b with
  | [] => []
  | x :: r => hex_char (x / 16) :: hex_char (x mod 16) :: hexlify r
  end.

(** ['%d' % d] *)
Definition fmt_d (d : Z) : text :=
  lit (DecimalString.NilZero.string_of_int (Z.to_int d)).

(** [d.update({name: j})] on a dictionary kept in insertion order. *)
Fixpoint update (d : list (string * json)) (name : string) (j : json)
  : list (string * json) :=
  match d with
  | [] => [(name, j)]
  | (k, v) :: r =>
      if String.eqb name k then (k, j) :: r else (k, v) :: update r name j
  end.

Definition keys {V : Type} (d : list (string * V)) : list string :=
  map fst d.

Section Json.

(** [json.loads] and [json.dumps] of the standard library. *)
Variable json_loads : text -> option json.
Variable json_dumps : json -> text.

(** [str(v)]: the [__str__] method of the class of [v].  [String.__str__]
    formats a [str] with [%d] and [Static_variant.__str__] reads the
    missing attribute [_type_id]: both raise. *)
Fixpoint str (v : value) : result text :=
  match v with
  | PyNone => Ok (lit "None")
  | PyText s => Ok s
  | Uint8 d | Uint16 d | Uint32 d | Uint64 d | Varint32 d | Int64 d
  | Bool d => Ok (fmt_d d)
  | String _ => Raise TypeError
  | Bytes_obj d _ => Ok d
  | Void => Ok []
  | Array_obj d _ | Set_obj d _ =>
      js <- (fix each (xs : list value) : result (list json) :=
               match xs with
               | [] => Ok []
               | a :: r =>
                   s <- str a ;; j <- ext "json" (json_loads s) ;;
                   t <- each r ;; Ok (j :: t)
               end) d ;;
      Ok (json_dumps (JArray js))
  | PointInTime d => Ok d
  | Signature d => Ok (json_dumps (JString (hexlify d)))
  | Optional d => str d
  | Static_variant _ _ => Raise AttributeError
  | Id_obj d => str d
  | Operation_obj op _ opId =>
      s <- str op ;; j <- ext "json" (json_loads s) ;;
      Ok (json_dumps (JArray [JNum opId; j]))
  | GrapheneObject _ data =>
      match data with
      | None => Ok (json_dumps (JObject []))
      | Some fields =>
          d <- (fix loop (fs : list (string * value))
                    (d : list (string * json))
                  : result (list (string * json)) :=
                  match fs with
                  | [] => Ok d
                  | (name, value) :: r =>
                      if match value with
                         | Optional inner => isempty inner
                         | _ => false
                         end
                      then loop r d
                      else
                        match (s <- str value ;; ext "json" (json_loads s))
                        with
                        | Ok j => loop r (update d name j)
                        | Raise _ =>
                            s <- str value ;;
                            loop r (update d name (JString s))
                        end
                  end) fields [] ;;
          Ok (json_dumps (JObject d))
      end
  | ObjectId_obj _ _ _ Id => Ok Id
  | PublicKey_obj _ repr => Ok repr
  end.

(** [JsonObj(data)] is [json.loads(str(data))]. *)
Definition JsonObj (data : value) : result json :=
  s <- str data ;; ext "json" (json_loads s).

(** [isinstance(value, Optional) and value.isempty()] *)
Definition skipped (value : value) : bool :=
  match value with
  | Optional inner => isempty inner
  | _ => false
  end.

(** The field loop of [GrapheneObject.__json__]. *)
Fixpoint json_loop (fs : list (string * value)) (d : list (string * json))
  : result (list (string * json)) :=
  match fs with
  | [] => Ok d
  | (name, value) :: r =>
      if skipped value then json_loop r d
      else
        match JsonObj value with
        | Ok j => json_loop r (update d name j)
        | Raise _ => s <- str value ;; json_loop r (update d name (JString s))
        end
  end.

Definition GrapheneObject__json__ (data : option (list (string * value)))
  : result (list (string * json)) :=
  match data with
  | None => Ok []
  | Some fields => json_loop fields []
  end.

End Json.

(** ** The signer *)

(** The libraries [sign] calls: [hashlib], [ecdsa] and the key import of
    [graphenebase.account].  A function that can raise returns an option
    (see [ext]); [sign_digest] draws its nonce from an entropy source, whose
    state is threaded through. *)
Class Libraries : Type := {
  entropy : Type;
  SigningKey : Type;
  VerifyingKey : Type;
  Point : Type;
  sha256 : bytestr -> bytestr;
  PrivateKey : text -> option bytestr;
  SigningKey_from_string : bytestr -> option SigningKey;
  sign_digest : SigningKey -> bytestr -> entropy -> option bytestr * entropy;
  sigdecode_der : bytestr -> option (Z * Z);
  get_verifying_key : SigningKey -> VerifyingKey;
  to_string : VerifyingKey -> bytestr;
  sigdecode_string : bytestr -> option (Z * Z);
  string_to_number : bytestr -> Z;
  square_root_mod_prime : Z -> Z -> option Z;
  inverse_mod : Z -> Z -> option Z;
  generator : Point;
  mkPoint : Z -> Z -> option Point;
  point_add : Point -> Point -> Point;
  point_mul : Z -> Point -> Point;
  from_public_point : Point -> option VerifyingKey;
  verify_digest : VerifyingKey -> bytestr -> bytestr -> option bool
}.

(** The parameters of [ecdsa.SECP256k1]. *)
Definition curve_a : Z := 0.
Definition curve_b : Z := 7.
Definition curve_p : Z :=
  0xFFFFFFFFFFFFFFFFFFFFFFFFFFFFFFFFFFFFFFFFFFFFFFFFFFFFFFFEFFFFFC2F.
Definition order : Z :=
  0xFFFFFFFFFFFFFFFFFFFFFFFFFFFFFFFEBAAEDCE6AF48A03BBFD25E8CD0364141.

Fixpoint be_bytes (w : nat) (n : Z) : bytestr :=
  match w with
  | O => []
  | S k => be_bytes k (n / 256) ++ [n mod 256]
  end.

(** Modelled from the spec: [ecdsa.util.sigencode_string], which is not
    part of the module; the spec has it "reserialize as fixed 32+32-byte
    concatenation".  Each number is written big-endian on the 32 bytes of
    the curve order and is refused when it does not fit. *)
Definition number_to_string (num : Z) : result bytestr :=
  if (0 <=? num) && (num <? 2 ^ 256) then Ok (be_bytes 32 num)
  else Raise (LibraryError "ecdsa").

Definition sigencode_string (r s : Z) : result bytestr :=
  r_str <- number_to_string r ;;
  s_str <- number_to_string s ;;
  Ok (r_str ++ s_str).

Fixpoint bytes_eqb (a b : bytestr) : bool :=
  match a, b with
  | [], [] => true
  | x :: a', y :: b' => (x =? y) && bytes_eqb a' b'
  | _, _ => false
  end.

(** [b[i]] on a [bytes] object, for [i >= 0]. *)
Definition index (b : bytestr) (i : Z) : result Z :=
  match nth_error b (Z.to_nat i) with
  | Some x => Ok x
  | None => Raise IndexError
  end.

(** A [Signed_Transaction] instance: the field dictionary and the attributes
    that [sign] sets. *)
Record Signed_Transaction : Type := {
  data : list (string * value);
  privkeys : option (list text);
  chainid : option text;
  message : option bytestr;
  digest : option bytestr
}.

Definition Signed_Transaction_init (refNum refPrefix : Z) (expiration : text)
           (operations : list value) : Signed_Transaction :=
  {| data := Signed_Transaction_data refNum refPrefix expiration operations;
     privkeys := None; chainid := None; message := None; digest := None |}.

(** [d[k] = v] on an ordered dictionary. *)
Fixpoint set_item (d : list (string * value)) (k : string) (v : value)
  : list (string * value) :=
  match d with
  | [] => [(k, v)]
  | (k', v') :: r =>
      if String.eqb k k' then (k', v) :: r else (k', v') :: set_item r k v
  end.

Fixpoint mem (x : text) (l : list text) : bool :=
  match l with
  | [] => false
  | y :: r => bytes_eqb x y || mem x r
  end.

(** The comprehension that fills [self.privkeys]: every key once, in the
    order of its first occurrence. *)
Fixpoint unique (items seen : list text) : list text :=
  match items with
  | [] => seen
  | item :: r => if mem item seen then unique r seen
                 else unique r (seen ++ [item])
  end.

(** How a call of [sign] ends: it returns, it raises, or the search for a
    canonical signature is still running when the fuel is spent. *)
Inductive outcome : Type :=
| Returned
| Raised (e : exn)
| Searching.

(** The chain lookup at the head of [sign]. *)
Definition chain_params_of (chain : chain_arg)
  : result (list (string * text)) :=
  match chain with
  | ChainName name =>
      match lookup name known_chains with
      | Some p => Ok p
      | None =>
          Raise (Exception "sign() only takes a string or a dict as chain!")
      end
  | ChainDict p => Ok p
  | ChainOther =>
      Raise (Exception "sign() only takes a string or a dict as chain!")
  end.

Section Signer.

Context {L : Libraries}.
Variable timegm_strptime : text -> option Z.

Definition recover_public_key (digest signature : bytestr) (i : Z)
  : result (option VerifyingKey) :=
  let isYOdd := i mod 2 in
  let isSecondKey := i / 2 in
  let yp := if isYOdd =? 0 then 0 else 1 in
  ' (r, s) <- ext "ecdsa" (sigdecode_string signature) ;;
  let x := r + isSecondKey * order in
  let alpha := (x * x * x + curve_a * x + curve_b) mod curve_p in
  beta <- ext "ecdsa" (square_root_mod_prime alpha curve_p) ;;
  let y := if (beta - yp) mod 2 =? 0 then beta else curve_p - beta in
  R <- ext "ecdsa" (mkPoint x y) ;;
  let e := string_to_number digest in
  r_inv <- ext "ecdsa" (inverse_mod r order) ;;
  let Q := point_mul r_inv
             (point_add (point_mul s R)
                        (point_mul ((- e) mod order) generator)) in
  vk <- ext "ecdsa" (from_public_point Q) ;;
  ok <- ext "ecdsa" (verify_digest vk signature digest) ;;
  if negb ok then Ok None
  else vk' <- ext "ecdsa" (from_public_point Q) ;; Ok (Some vk').

(** The loop of [recoverPubkeyParameter] over the indices still to try;
    [p.to_string()] on [None] raises [AttributeError]. *)
Fixpoint recover_loop (digest signature : bytestr) (pubkey : VerifyingKey)
         (range : list Z) : result (option Z) :=
  match range with
  | [] => Ok None
  | i :: rest =>
      p <- recover_public_key digest signature i ;;
      match p with
      | None => Raise AttributeError
      | Some p =>
          if bytes_eqb (to_string p) (to_string pubkey) then Ok (Some i)
          else recover_loop digest signature pubkey rest
      end
  end.

Definition recoverPubkeyParameter (digest signature : bytestr)
           (pubkey : VerifyingKey) : result (option Z) :=
  recover_loop digest signature pubkey [0; 1; 2; 3].

(** One pass through the body of [while 1]: [Ok None] when the DER
    lengths fail the test and the loop goes round again, [Ok (Some (i,
    signature))] at [break].  [lenR is 32] compares two small integers and
    is an equality; [i += 4] on [None] raises [TypeError]. *)
Definition attempt (sk : SigningKey) (digest : bytestr) (w : entropy)
  : result (option (Z * bytestr)) * entropy :=
  let (sigder, w) := sign_digest sk digest w in
  (sigder <- ext "ecdsa" sigder ;;
   ' (r, s) <- ext "ecdsa" (sigdecode_der sigder) ;;
   signature <- sigencode_string r s ;;
   lenR <- index sigder 3 ;;
   lenS <- index sigder (5 + lenR) ;;
   if (lenR =? 32) && (lenS =? 32) then
     i <- recoverPubkeyParameter digest signature (get_verifying_key sk) ;;
     match i with
     | None => Raise TypeError
     | Some i => Ok (Some (i + 4 + 27, signature))
     end
   else Ok None,
   w).

(** The [while 1] loop; [None] when the fuel is spent before [break]. *)
Fixpoint search (fuel : nat) (sk : SigningKey) (digest : bytestr)
         (w : entropy) : option (result (Z * bytestr)) * entropy :=
  match fuel with
  | O => (None, w)
  | S k =>
      match attempt sk digest w with
      | (Raise e, w) => (Some (Raise e), w)
      | (Ok (Some found), w) => (Some (Ok found), w)
      | (Ok None, w) => search k sk digest w
      end
  end.

(** The body of [for wif in self.privkeys] after the search: pack the
    header byte and the signature. *)
Definition sigstr (found : Z * bytestr) : result bytestr :=
  let (i, signature) := found in
  h <- struct_pack fmt_B i ;; Ok (h ++ signature).

(** The loop [for wif in self.privkeys], with the list [sigs] built so
    far. *)
Fixpoint sign_keys (fuel : nat) (digest : bytestr) (keys : list text)
         (sigs : list value) (w : entropy)
  : option (result (list value)) * entropy :=
  match keys with
  | [] => (Some (Ok sigs), w)
  | wif :: rest =>
      match (p <- ext "account" (PrivateKey wif) ;;
             ext "ecdsa" (SigningKey_from_string p)) with
      | Raise e => (Some (Raise e), w)
      | Ok sk =>
          match search fuel sk digest w with
          | (None, w) => (None, w)
          | (Some (Raise e), w) => (Some (Raise e), w)
          | (Some (Ok found), w) =>
              match sigstr found with
              | Raise e => (Some (Raise e), w)
              | Ok blob => sign_keys fuel digest rest
                             (sigs ++ [Signature blob]) w
              end
          end
      end
  end.

(** [bytes(self)] for the transaction. *)
Definition wire (self : Signed_Transaction) : result bytestr :=
  bytes timegm_strptime (GrapheneObject "Signed_Transaction"
                                        (Some (data self))).

Definition sign (fuel : nat) (self : Signed_Transaction)
           (wifkeys : list text) (chain : chain_arg) (w : entropy)
  : outcome * Signed_Transaction * entropy :=
  match chain_params_of chain with
  | Raise e => (Raised e, self, w)
  | Ok chain_params =>
      match lookup "chain_id" chain_params with
      | None =>
          (Raised (Exception "sign() needs a 'chain_id' in chain params!"),
           self, w)
      | Some chain_id =>
          let self :=
            {| data := data self;
               privkeys := Some (unique wifkeys []);
               chainid := Some chain_id;
               message := message self;
               digest := digest self |} in
          match (h <- unhexlify chain_id ;; b <- wire self ;; Ok (h ++ b))
          with
          | Raise e => (Raised e, self, w)
          | Ok m =>
              let self :=
                {| data := data self;
                   privkeys := privkeys self;
                   chainid := chainid self;
                   message := Some m;
                   digest := Some (sha256 m) |} in
              match sign_keys fuel (sha256 m) (unique wifkeys []) [] w with
              | (None, w) => (Searching, self, w)
              | (Some (Raise e), w) => (Raised e, self, w)
              | (Some (Ok sigs), w) =>
                  (Returned,
                   {| data := set_item (data self) "signatures"
                                       (Array sigs);
                      privkeys := privkeys self;
                      chainid := chainid self;
                      message := message self;
                      digest := digest self |},
                   w)
              end
          end
      end
  end.

End Signer.

(** ** Object ids, in the spec's words *)

(** Following the spec's words: a text made of "three dot-separated
    non-negative integers", each a non-empty run of decimal digits. *)
Definition is_nat_text (s : text) : bool := nonempty s && forallb is_digit s.

Definition three_nonneg_ints (s : text) : bool :=
  match split s with
  | [space; type; id] => is_nat_text space && is_nat_text type && is_nat_text id
  | _ => false
  end.

(** The check a [type_verify] hint asks for; no hint, or the empty string,
    asks for none. *)
Definition hint_matches (type_verify : option string) (type : Z) : bool :=
  match type_verify with
  | None | Some EmptyString => true
  | Some tv =>
      match lookup tv object_type with
      | Some t => t =? type
      | None => false
      end
  end.

(** ** Exception classes *)



(** Induction on values, through the lists of elements and of fields. *)
Section ValueInduction.

Variable P : value -> Prop.

Hypothesis P_leaf :
  forall v,
    match v with
    | Array_obj _ _ | Set_obj _ _ | Optional _ | Static_variant _ _
    | Id_obj _ | Operation_obj _ _ _ | GrapheneObject _ _
    | ObjectId_obj _ _ _ _ => True
    | _ => P v
    end.
Hypothesis P_Array :
  forall d length, Forall P d -> P length -> P (Array_obj d length).
Hypothesis P_Set :
  forall d length, Forall P d -> P length -> P (Set_obj d length).
Hypothesis P_Optional : forall d, P d -> P (Optional d).
Hypothesis P_Static_variant :
  forall d type_id, P d -> P (Static_variant d type_id).
Hypothesis P_Id : forall d, P d -> P (Id_obj d).
Hypothesis P_Operation :
  forall op name opId, P op -> P (Operation_obj op name opId).
Hypothesis P_GrapheneObject_None : forall cls, P (GrapheneObject cls None).
Hypothesis P_GrapheneObject :
  forall cls fields,
    Forall (fun f => P (snd f)) fields ->
    P (GrapheneObject cls (Some fields)).
Hypothesis P_ObjectId :
  forall space type instance Id,
    P instance -> P (ObjectId_obj space type instance Id).


End ValueInduction.

(** ** The signer, in the spec's words *)




Definition outcome_of {A : Type} (r : option (result A)) : outcome :=
  match r with
  | None => Searching
  | Some (Raise e) => Raised e
  | Some (Ok _) => Returned
  end.

Section SignerSpec.

Context {L : Libraries}.

(** Whether the key recovered at index [i] is the signer's. *)
Definition key_matches (digest signature : bytestr) (pubkey : VerifyingKey)
           (i : Z) : result bool :=
  p <- recover_public_key digest signature i ;;
  match p with
  | None => Raise AttributeError
  | Some p => Ok (bytes_eqb (to_string p) (to_string pubkey))
  end.

(** A blob is a canonical signature of [digest] under [sk] when it is a
    header byte in 31..34 followed by the 64 bytes of (r, s), for a DER
    signature that [sign_digest] produced, whose two length octets are 32
    and whose recovery index is the header minus 31. *)
Definition canonical_signature (sk : SigningKey) (digest blob : bytestr)
  : Prop :=
  exists (w : entropy) (sigder : bytestr) (r s header : Z)
         (signature : bytestr),
    fst (sign_digest sk digest w) = Some sigder /\
    sigdecode_der sigder = Some (r, s) /\
    index sigder 3 = Ok 32 /\
    index sigder (5 + 32) = Ok 32 /\
    sigencode_string r s = Ok signature /\
    In header [31; 32; 33; 34] /\
    recoverPubkeyParameter digest signature (get_verifying_key sk)
    = Ok (Some (header - 31)) /\
    blob = header :: signature.

End SignerSpec.

(** ** A small instance of the libraries

    Enough of an ECDSA library to run [sign] on concrete inputs.  The
    entropy source is the list of the DER signatures still to be handed
    out; a key is its own byte string; the key recovered from a signature
    (r, s) at index i is the single byte (s + i) mod 256. *)

Definition be_decode (b : bytestr) : Z :=
  fold_left (fun acc x => acc * 256 + x) b 0.

Definition toy_sigdecode_der (sigder : bytestr) : option (Z * Z) :=
  match sigder with
  | _ :: _ :: _ :: lenR :: rest =>
      match skipn (Z.to_nat lenR) rest with
      | _ :: lenS :: rest' =>
          Some (be_decode (firstn (Z.to_nat lenR) rest),
                be_decode (firstn (Z.to_nat lenS) rest'))
      | _ => None
      end
  | _ => None
  end.

#[local] Instance toy : Libraries := {|
  entropy := list bytestr;
  SigningKey := bytestr;
  VerifyingKey := bytestr;
  Point := Z;
  sha256 := fun m => [len m mod 256];
  PrivateKey := fun wif => Some wif;
  SigningKey_from_string := fun p => Some p;
  sign_digest := fun _ _ w =>
    match w with
    | sigder :: rest => (Some sigder, rest)
    | [] => (None, [])
    end;
  sigdecode_der := toy_sigdecode_der;
  get_verifying_key := fun sk => sk;
  to_string := fun vk => vk;
  sigdecode_string := fun signature =>
    Some (be_decode (firstn 32 signature), be_decode (skipn 32 signature));
  string_to_number := be_decode;
  square_root_mod_prime := fun _ _ => Some 0;
  inverse_mod := fun _ _ => Some 0;
  generator := 0;
  mkPoint := fun x y => Some (2 * (x / order) + y mod 2);
  point_add := fun P _ => P;
  point_mul := fun k P => k + P;
  from_public_point := fun Q => Some [Q mod 256];
  verify_digest := fun _ _ _ => Some true
|}.

(** DER signatures for the instance: thirty-two bytes for r and for s
    ending in [last], and one whose r takes thirty-one bytes only. *)
Definition toy_der (last : Z) : bytestr :=
  [48; 68; 2; 32] ++ repeat 17 32 ++ [2; 32] ++ repeat 34 31 ++ [last].

Definition toy_der_short : bytestr :=
  [48; 67; 2; 31] ++ repeat 17 31 ++ [2; 32] ++ repeat 34 32.

Definition toy_signature (last : Z) : bytestr :=
  repeat 17 32 ++ repeat 34 31 ++ [last].

Definition toy_time (_ : text) : option Z := Some 0.

Definition toy_tx : Signed_Transaction :=
  Signed_Transaction_init 1 2 (lit "2016-01-01T00:00:00") [].

Definition toy_keys : list text := [[5]; [5]; [6]].

Definition toy_entropy : list bytestr := [toy_der_short; toy_der 4; toy_der 3].

Definition toy_run : outcome * Signed_Transaction * list bytestr :=
  sign (L := toy) toy_time 5 toy_tx toy_keys (ChainName "GPH") toy_entropy.

Definition toy_chain_id : bytestr :=
  [184; 209; 96; 57; 101; 179; 235; 26; 203; 162; 126; 98; 255; 89; 247; 78;
   250; 49; 84; 212; 58; 65; 136; 211; 129; 8; 138; 199; 205; 243; 85; 57].

Definition toy_wire : bytestr := [1; 0; 2; 0; 0; 0; 0; 0; 0; 0; 0; 0].

(** The same instance with a verification that refuses every recovered
    key. *)
#[local] Instance toy_unverified : Libraries := {|
  entropy := @entropy toy;
  SigningKey := @SigningKey toy;
  VerifyingKey := @VerifyingKey toy;
  Point := @Point toy;
  sha256 := @sha256 toy;
  PrivateKey := @PrivateKey toy;
  SigningKey_from_string := @SigningKey_from_string toy;
  sign_digest := @sign_digest toy;
  sigdecode_der := @sigdecode_der toy;
  get_verifying_key := @get_verifying_key toy;
  to_string := @to_string toy;
  sigdecode_string := @sigdecode_string toy;
  string_to_number := @string_to_number toy;
  square_root_mod_prime := @square_root_mod_prime toy;
  inverse_mod := @inverse_mod toy;
  generator := @generator toy;
  mkPoint := @mkPoint toy;
  point_add := @point_add toy;
  point_mul := @point_mul toy;
  from_public_point := @from_public_point toy;
  verify_digest := fun _ _ _ => Some false
|}.

(** A second call of sign, on the transaction that the first run signed. *)
Definition toy_rerun : outcome * Signed_Transaction * list bytestr :=
  sign (L := toy) toy_time 5 (snd (fst toy_run)) [[7]] (ChainName "GPH")
       [toy_der 5].

(** ** The operation registry, read backwards *)

(** The loop of [getOperationNameForId] over the registry, in insertion
    order.  [int(operations[key]) is int(i)] compares two integers of which
    one is a tag below 44; equal integers that small are one object, so the
    test is an equality. *)
Fixpoint find_operation (i : Z) (table : list (string * Z)) : option string :=
  match table with
  | [] => None
  | (key, id) :: rest =>
      if id =? i then Some key else find_operation i rest
  end.

Definition getOperationNameForId (i : Z) : text :=
  match find_operation i operations with
  | Some key => lit key
  | None => lit "Unknown Operation ID " ++ fmt_d i
  end.

(** ** Reading encodings back *)

(** The number a byte string stands for, least significant byte first. *)
Definition le_value (b : bytestr) : Z :=
  fold_right (fun x acc => x + 256 * acc) 0 b.

(** The shape of a varint: every byte but the last has its high bit set,
    the last has not. *)
Definition continued (b : Z) : Prop := 128 <= b < 256.

Definition varint_shaped (bs : bytestr) : Prop :=
  exists body final,
    bs = body ++ [final] /\ Forall continued body /\ 0 <= final < 128.


(** ** The chain of a memo *)


(** ** What the JSON rendering shows *)

Section JsonEntries.

Variable json_loads : text -> option json.
Variable json_dumps : json -> text.

(** What [__json__] stores for a field whose text is [s]: the parsed text,
    or the text itself when it does not parse. *)
Definition json_entry (s : text) : json :=
  match json_loads s with
  | Some j => j
  | None => JString s
  end.

(** The fields that [__json__] does not skip. *)
Definition shown (f : string * value) : bool := negb (skipped (snd f)).

(** The fields that [__json__] gets past: skipped, or with a text. *)
Definition renders (f : string * value) : Prop :=
  skipped (snd f) = true \/ is_ok (str json_loads json_dumps (snd f)) = true.

End JsonEntries.

(** * Properties *)

(** ** Results *)

Lemma bind_ok {A B : Type} (m : result A) (k : A -> result B) (b : B) :
  bind m k = Ok b -> exists a, m = Ok a /\ k a = Ok b.
Proof.
  destruct m as [a | e]; simpl; intros H; [ eauto | discriminate ].
Qed.


(** ** Varint *)

Lemma varint_byte_range (n : Z) :
  is_byte (Z.lor (Z.land n 127) 128) = true.
Proof.
  unfold is_byte.
  assert (H : 0 <= Z.land n 127 < 128).
  { change 127 with (Z.ones 7). rewrite Z.land_ones by lia.
    change (2 ^ 7) with 128. apply Z.mod_pos_bound. lia. }
  assert (Hlo : 0 <= Z.lor (Z.land n 127) 128).
  { apply Z.lor_nonneg. lia. }
  assert (Hhi : Z.lor (Z.land n 127) 128 < 2 ^ 8).
  { destruct (Z.eq_dec (Z.lor (Z.land n 127) 128) 0) as [E | E];
      [ rewrite E; reflexivity | ].
    apply Z.log2_lt_pow2; [ lia | ].
    rewrite Z.log2_lor by lia.
    apply Z.max_lub_lt.
    - destruct (Z.eq_dec (Z.land n 127) 0) as [E0 | E0];
        [ rewrite E0; simpl; lia | ].
      apply Z.log2_lt_pow2; [ lia | ]. change (2 ^ 8) with 256. lia.
    - reflexivity. }
  change (2 ^ 8) with 256 in Hhi.
  apply andb_true_intro; split; [ apply Z.leb_le | apply Z.ltb_lt ]; lia.
Qed.

(** The accumulator of the loop is a prefix of the result. *)
Lemma varint_loop_acc (fuel : nat) :
  forall n data,
    varint_loop fuel n data =
    (r <- varint_loop fuel n [] ;; Ok (data ++ r)).
Proof.
  induction fuel as [| k IH]; intros n data; simpl.
  - destruct (bytes_of_ints [n]); reflexivity.
  - destruct (128 <=? n).
    + rewrite IH. rewrite (IH _ [Z.lor (Z.land n 127) 128]).
      destruct (varint_loop k (Z.shiftr n 7) []) as [r | e]; simpl;
        [ rewrite <- app_assoc | ]; reflexivity.
    + destruct (bytes_of_ints [n]); reflexivity.
Qed.

Lemma log2_shiftr_7 (n : Z) :
  128 <= n -> Z.log2 (Z.shiftr n 7) = Z.log2 n - 7.
Proof.
  intros H. rewrite Z.log2_shiftr by lia.
  assert (7 <= Z.log2 n).
  { change 7 with (Z.log2 128). apply Z.log2_le_mono. lia. }
  lia.
Qed.

(** Beyond [log2 n] iterations the fuel does not matter. *)
Lemma varint_loop_fuel (f1 : nat) :
  forall f2 n data,
    Z.log2 n <= Z.of_nat f1 -> Z.log2 n <= Z.of_nat f2 ->
    varint_loop f1 n data = varint_loop f2 n data.
Proof.
  induction f1 as [| k IH]; intros f2 n data H1 H2.
  - destruct f2 as [| k2]; [ reflexivity | ]. simpl.
    destruct (Z.leb_spec 128 n) as [Hn | Hn]; [ | reflexivity ].
    assert (7 <= Z.log2 n).
    { change 7 with (Z.log2 128). apply Z.log2_le_mono. lia. }
    simpl in H1. lia.
  - destruct f2 as [| k2]; simpl.
    + destruct (Z.leb_spec 128 n) as [Hn | Hn]; [ | reflexivity ].
      assert (7 <= Z.log2 n).
      { change 7 with (Z.log2 128). apply Z.log2_le_mono. lia. }
      simpl in H2. lia.
    + destruct (Z.leb_spec 128 n) as [Hn | Hn]; [ | reflexivity ].
      apply IH; rewrite log2_shiftr_7 by lia; lia.
Qed.

(** The equation of the loop, free of fuel: [varint] is the function the
    [while] loop computes. *)
Lemma varint_unfold (n : Z) :
  varint n =
  if 128 <=? n
  then r <- varint (Z.shiftr n 7) ;; Ok (Z.lor (Z.land n 127) 128 :: r)
  else bytes_of_ints [n].
Proof.
  unfold varint.
  destruct (Z.leb_spec 128 n) as [Hn | Hn].
  - assert (H7 : 7 <= Z.log2 n).
    { change 7 with (Z.log2 128). apply Z.log2_le_mono. lia. }
    destruct (Z.to_nat (Z.log2 n)) as [| k] eqn:Ek; [ lia | ].
    simpl. destruct (Z.leb_spec 128 n); [ | lia ].
    rewrite (varint_loop_fuel k (Z.to_nat (Z.log2 (Z.shiftr n 7))))
      by (rewrite log2_shiftr_7 by lia; lia).
    rewrite varint_loop_acc. reflexivity.
  - destruct (Z.to_nat (Z.log2 n)); simpl.
    + destruct (bytes_of_ints [n]); reflexivity.
    + destruct (Z.leb_spec 128 n); [ lia | ].
      destruct (bytes_of_ints [n]); reflexivity.
Qed.

(** [varint] returns on every non-negative integer, with at least one
    byte. *)
Lemma varint_total (n : Z) :
  0 <= n -> exists b bs, varint n = Ok (b :: bs).
Proof.
  intros Hn.
  assert (Hgen : forall fuel m, 0 <= m -> Z.log2 m <= Z.of_nat fuel ->
                 exists b bs, varint_loop fuel m [] = Ok (b :: bs)).
  { induction fuel as [| k IH]; intros m Hm Hf.
    - simpl. unfold bytes_of_ints. simpl.
      assert (Hlt : m < 2) by (destruct (Z.ltb_spec m 2); [ lia | ];
        assert (1 <= Z.log2 m) by (change 1 with (Z.log2 2);
          apply Z.log2_le_mono; lia); simpl in Hf; lia).
      unfold is_byte.
      destruct (Z.leb_spec 0 m); [ | lia ].
      destruct (Z.ltb_spec m 256); [ | lia ]. simpl. eauto.
    - simpl. destruct (Z.leb_spec 128 m) as [H | H].
      + rewrite varint_loop_acc.
        destruct (IH (Z.shiftr m 7)) as (b & bs & E).
        * apply Z.shiftr_nonneg. lia.
        * rewrite log2_shiftr_7 by lia. lia.
        * rewrite E. simpl. eauto.
      + unfold bytes_of_ints. simpl. unfold is_byte.
        destruct (Z.leb_spec 0 m); [ | lia ].
        destruct (Z.ltb_spec m 256); [ | lia ]. simpl. eauto. }
  apply Hgen; [ exact Hn | ].
  rewrite Z2Nat.id; [ lia | apply Z.log2_nonneg ].
Qed.

(** [varint] refuses every negative integer. *)
Lemma varint_negative (n : Z) : n < 0 -> varint n = Raise ValueError.
Proof.
  intros Hn. rewrite varint_unfold.
  destruct (Z.leb_spec 128 n); [ lia | ].
  unfold bytes_of_ints. simpl. unfold is_byte.
  destruct (Z.leb_spec 0 n); [ lia | reflexivity ].
Qed.

Lemma split_low_bits (n : Z) :
  Z.lor (Z.land n 127) (Z.shiftl (Z.shiftr n 7) 7) = n.
Proof.
  apply Z.bits_inj'. intros i Hi.
  rewrite Z.lor_spec, Z.land_spec.
  change 127 with (Z.ones 7).
  destruct (Z.ltb_spec i 7) as [Hlt | Hge].
  - rewrite Z.ones_spec_low by lia.
    rewrite Z.shiftl_spec_low by lia.
    rewrite andb_true_r, orb_false_r. reflexivity.
  - rewrite Z.ones_spec_high by lia.
    rewrite Z.shiftl_spec by lia. rewrite Z.shiftr_spec by lia.
    rewrite andb_false_r. simpl. f_equal. lia.
Qed.

Lemma continuation_byte (n : Z) :
  Z.land (Z.lor (Z.land n 127) 128) 127 = Z.land n 127 /\
  Z.land (Z.lor (Z.land n 127) 128) 128 = 128.
Proof.
  split; apply Z.bits_inj'; intros i Hi;
    rewrite Z.land_spec, Z.lor_spec, Z.land_spec.
  - change 127 with (Z.ones 7).
    destruct (Z.ltb_spec i 7).
    + rewrite Z.ones_spec_low by lia.
      change 128 with (2 ^ 7). rewrite Z.pow2_bits_false by lia.
      rewrite !andb_true_r, orb_false_r. reflexivity.
    + rewrite Z.ones_spec_high by lia. rewrite !andb_false_r. reflexivity.
  - change 127 with (Z.ones 7). change 128 with (2 ^ 7).
    destruct (Z.eq_dec i 7) as [-> | Hne].
    + rewrite Z.pow2_bits_true by lia. rewrite orb_true_r. reflexivity.
    + rewrite Z.pow2_bits_false by lia.
      rewrite andb_false_r. reflexivity.
Qed.

(** Decoding the code points of an encoding gives the number back. *)
Lemma varintdecode_loop_varint (fuel : nat) :
  forall n bs shift res,
    0 <= n -> 0 <= shift -> Z.log2 n <= Z.of_nat fuel ->
    varint_loop fuel n [] = Ok bs ->
    varintdecode_loop (map CharItem bs) shift res =
    Ok (Z.lor res (Z.shiftl n shift)).
Proof.
  induction fuel as [| k IH]; intros n bs shift res Hn Hs Hf E.
  - simpl in E.
    assert (Hlt : n < 2).
    { destruct (Z.ltb_spec n 2); [ lia | ].
      assert (1 <= Z.log2 n)
        by (change 1 with (Z.log2 2); apply Z.log2_le_mono; lia).
      simpl in Hf. lia. }
    unfold bytes_of_ints in E. simpl in E.
    destruct (is_byte n); [ | discriminate ].
    simpl in E. injection E as <-. simpl.
    assert (H127 : Z.land n 127 = n)
      by (assert (n = 0 \/ n = 1) as [-> | ->] by lia; reflexivity).
    assert (H128 : Z.land n 128 = 0)
      by (assert (n = 0 \/ n = 1) as [-> | ->] by lia; reflexivity).
    rewrite H127, H128. reflexivity.
  - simpl in E. destruct (Z.leb_spec 128 n) as [H | H].
    + rewrite varint_loop_acc in E.
      apply bind_ok in E. destruct E as (r & Er & E).
      injection E as <-. simpl.
      destruct (continuation_byte n) as [H127 H128].
      rewrite H127, H128. simpl.
      rewrite (IH (Z.shiftr n 7) r (shift + 7)); try lia.
      * f_equal. rewrite <- Z.lor_assoc. f_equal.
        replace (shift + 7) with (7 + shift) by lia.
        rewrite <- Z.shiftl_shiftl by lia.
        rewrite <- Z.shiftl_lor. rewrite split_low_bits. reflexivity.
      * apply Z.shiftr_nonneg. lia.
      * rewrite log2_shiftr_7 by lia. lia.
      * exact Er.
    + unfold bytes_of_ints in E. simpl in E.
      destruct (is_byte n); [ | discriminate ].
      simpl in E. injection E as <-. simpl.
      assert (H127 : Z.land n 127 = n).
      { change 127 with (Z.ones 7). rewrite Z.land_ones by lia.
        apply Z.mod_small. change (2 ^ 7) with 128. lia. }
      assert (H128 : Z.land n 128 = 0).
      { apply Z.bits_inj'. intros i Hi. rewrite Z.land_spec, Z.bits_0.
        change 128 with (2 ^ 7).
        destruct (Z.eq_dec i 7) as [-> | Hne].
        - rewrite Z.pow2_bits_true by lia. rewrite andb_true_r.
          apply Z.bits_above_log2; [ lia | ].
          destruct (Z.eq_dec n 0) as [-> | Hn0]; [ simpl; lia | ].
          apply Z.log2_lt_pow2; [ lia | ]. change (2 ^ 7) with 128. lia.
        - rewrite Z.pow2_bits_false by lia. apply andb_false_r. }
      rewrite H127, H128. reflexivity.
Qed.

(** Read as text, an encoding decodes to the number it encodes: the decoder
    inverts the encoder on the code points. *)
Lemma varintdecode_text_varint (n : Z) :
  0 <= n -> (bs <- varint n ;; varintdecode (PyStr bs)) = Ok n.
Proof.
  intros Hn. destruct (varint_total n Hn) as (b & bs & E).
  rewrite E. simpl bind. unfold varintdecode, items.
  rewrite (varintdecode_loop_varint (Z.to_nat (Z.log2 n)) n (b :: bs) 0 0);
    try lia.
  - rewrite Z.shiftl_0_r. reflexivity.
  - exact E.
Qed.

(** C3.  The claim is that decoding the varint encoding of n returns n for
    every n in [0, 2^64).  On the code it never does: [varint] returns a
    [bytes] object, iterating it yields integers, and the [ord] call of
    [varintdecode] refuses the first of them with [TypeError] (a negative
    n is refused by [varint] itself with [ValueError]). *)
Theorem varintdecode_varint_raises (n : Z) :
  (bs <- varint n ;; varintdecode (PyBytes bs)) =
  Raise (if n <? 0 then ValueError else TypeError).
Proof.
  destruct (Z.ltb_spec n 0) as [Hneg | Hpos].
  - rewrite varint_negative by lia. reflexivity.
  - destruct (varint_total n Hpos) as (b & bs & E). rewrite E. reflexivity.
Qed.

(** ** Fixed-width integers *)

(** The value of a byte string read least significant byte first. *)
Lemma le_bytes_value (w : nat) :
  forall n,
    fold_right (fun x acc => x + 256 * acc) 0 (le_bytes w n)
    = n mod 256 ^ Z.of_nat w.
Proof.
  induction w as [| k IH]; intros n.
  - cbn. rewrite Z.mod_1_r. reflexivity.
  - cbn [le_bytes fold_right]. rewrite IH.
    rewrite Nat2Z.inj_succ, Z.pow_succ_r by lia.
    rewrite Z.rem_mul_r by lia. reflexivity.
Qed.

Lemma le_bytes_length (w : nat) : forall n, List.length (le_bytes w n) = w.
Proof.
  induction w as [| k IH]; intros n; [ reflexivity | ].
  cbn [le_bytes List.length]. rewrite IH. reflexivity.
Qed.

(** An unsigned [struct.pack] writes the number itself, least significant
    byte first. *)
Lemma struct_pack_unsigned (f : fmt) (d : Z) (b : bytestr) :
  f <> fmt_q ->
  struct_pack f d = Ok b ->
  fold_right (fun x acc => x + 256 * acc) 0 b = d /\
  List.length b =
  match f with
  | fmt_B => 1%nat | fmt_H => 2%nat | fmt_I => 4%nat | _ => 8%nat
  end.
Proof.
  intros Hf H. unfold struct_pack in H.
  destruct f; try contradiction;
    match type of H with
    | (if ?c then _ else _) = _ => destruct c eqn:E
    end; try discriminate H;
    apply andb_prop in E; destruct E as [E1 E2];
    apply Z.leb_le in E1; apply Z.ltb_lt in E2;
    assert (Hb : b = le_bytes (List.length b) d)
      by (injection H as <-; reflexivity);
    (split; [ | injection H as <-; reflexivity ]);
    rewrite Hb, le_bytes_value;
    injection H as <-; cbn [List.length le_bytes];
    apply Z.mod_small; split; try lia; exact E2.
Qed.

(** ** Wire encoding of composites *)

Section WireProperties.

Variable timegm_strptime : text -> option Z.

Local Abbreviation bytes := (bytes timegm_strptime).
Local Abbreviation join := (join timegm_strptime).
Local Abbreviation field_bytes := (field_bytes timegm_strptime).
Local Abbreviation fields_bytes := (fields_bytes timegm_strptime).

Lemma bytes_Array_obj (d : list value) (length : value) :
  bytes (Array_obj d length) =
  (l <- bytes length ;; b <- join d ;; Ok (l ++ b)).
Proof.
  reflexivity.
Qed.

Lemma bytes_Set_obj (d : list value) (length : value) :
  bytes (Set_obj d length) =
  (l <- bytes length ;; b <- join d ;; Ok (l ++ b)).
Proof.
  reflexivity.
Qed.

Lemma bytes_GrapheneObject (cls : string) (fields : list (string * value)) :
  bytes (GrapheneObject cls (Some fields)) = fields_bytes fields [].
Proof.
  reflexivity.
Qed.

(** The field loop appends to what it was given. *)
Lemma fields_bytes_acc (fs : list (string * value)) :
  forall b,
    fields_bytes fs b = (x <- fields_bytes fs [] ;; Ok (b ++ x)).
Proof.
  induction fs as [| [name value] r IH]; intros b; simpl.
  - rewrite app_nil_r. reflexivity.
  - destruct (field_bytes value) as [x | e]; simpl; [ | reflexivity ].
    rewrite IH. rewrite (IH x).
    destruct (fields_bytes r []); simpl; [ | reflexivity ].
    rewrite app_assoc. reflexivity.
Qed.

(** A composite is the concatenation of its fields, first field first. *)
Lemma fields_bytes_cons (name : string) (v : value)
      (r : list (string * value)) :
  fields_bytes ((name, v) :: r) [] =
  (x <- field_bytes v ;; y <- fields_bytes r [] ;; Ok (x ++ y)).
Proof.
  simpl. destruct (field_bytes v) as [x | e]; simpl; [ | reflexivity ].
  apply fields_bytes_acc.
Qed.

Lemma varint_0 : varint 0 = Ok [0].
Proof. reflexivity. Qed.

Lemma bytes_empty_Set : bytes (Set_ []) = Ok [0].
Proof. reflexivity. Qed.

(** *** Optional *)

Lemma bytes_Optional (d : value) :
  bytes (Optional d) =
  (c <- bytes d ;;
   if nonempty c
   then one <- struct_pack fmt_B 1 ;; b <- bytes d ;; Ok (one ++ b)
   else struct_pack fmt_B 0).
Proof. reflexivity. Qed.

(** An inner value with no bytes makes the optional absent: [00]. *)
Lemma Optional_bytes_absent (d : value) :
  bytes d = Ok [] -> bytes (Optional d) = Ok [0].
Proof. intros H. rewrite bytes_Optional, H. reflexivity. Qed.

(** An inner value with bytes makes it present: [01], then the bytes. *)
Lemma Optional_bytes_present (d : value) (c : Z) (cs : bytestr) :
  bytes d = Ok (c :: cs) -> bytes (Optional d) = Ok (1 :: c :: cs).
Proof.
  intros H. rewrite bytes_Optional, H. reflexivity.
Qed.

(** A memo built without a message holds no data and is an absent
    optional on the wire. *)
Lemma Optional_empty_Memo :
  bytes (Optional (GrapheneObject "Memo" None)) = Ok [0].
Proof. reflexivity. Qed.

Lemma Optional_None : bytes (Optional PyNone) = Raise TypeError.
Proof. reflexivity. Qed.

Lemma fields_bytes_raise_at (pre : list (string * value)) :
  forall (name : string) (v : value) (post : list (string * value))
         (b : bytestr) (e : exn),
    field_bytes v = Raise e ->
    is_ok (fields_bytes (pre ++ (name, v) :: post) b) = false.
Proof.
  induction pre as [| [n v'] r IH]; intros name v post b e H; simpl.
  - rewrite H. reflexivity.
  - destruct (field_bytes v'); simpl; [ | reflexivity ].
    apply IH with (e := e). exact H.
Qed.

(** C4.  The claim is that an absent optional encodes to [00], a present
    one to [01] followed by the bytes of its inner value, and that the
    memo of a Transfer constructed with no memo serializes to [00].  On
    the code a Transfer constructed with no memo holds [Optional(None)],
    whose encoding evaluates [bytes(None)] and raises [TypeError]: such a
    transfer has no wire form at all, whatever the other arguments. *)
Theorem transfer_without_memo_raises :
  bytes (Optional PyNone) = Raise TypeError /\
  (forall (feeObj amountObj : value) (from to : text),
      is_ok (t <- Transfer feeObj from to amountObj PyNone ;; bytes t)
      = false) /\
  (fee <- Asset 10 (lit "1.3.0") ;;
   amount <- Asset 5 (lit "1.3.0") ;;
   t <- Transfer fee (lit "1.2.0") (lit "1.2.1") amount PyNone ;;
   bytes t) = Raise TypeError.
Proof.
  split; [ reflexivity | split; [ | reflexivity ] ].
  intros feeObj amountObj from to. unfold Transfer.
  destruct (ObjectId from (Some "account")) as [f | e]; cbn [bind];
    [ | reflexivity ].
  destruct (ObjectId to (Some "account")) as [t | e]; cbn [bind];
    [ | reflexivity ].
  rewrite bytes_GrapheneObject.
  apply (fields_bytes_raise_at
           [("fee", feeObj); ("from", f); ("to", t); ("amount", amountObj)]
           "memo" (Optional PyNone) [("extensions", Set_ [])] []
           TypeError).
  reflexivity.
Qed.

(** *** Signed transactions *)

(** C6.  A signed transaction serializes as the concatenation, in
    declaration order and with nothing in between, of ref_block_num as
    little-endian u16, ref_block_prefix as little-endian u32, expiration
    as a u32 point in time, the operations array (varint count, then the
    elements), the empty extensions set (varint 0, the byte 00) and the
    signatures field: the void placeholder before signing, the array of
    signatures after.  An error in a field is the error of the whole. *)
Theorem signed_transaction_wire (refNum refPrefix : Z) (expiration : text)
        (operations : list value) (sigs : option (list value)) :
  let signatures :=
    match sigs with None => Void | Some l => Array l end in
  bytes (GrapheneObject "Signed_Transaction"
           (Some (set_item (Signed_Transaction_data refNum refPrefix
                              expiration operations)
                           "signatures" signatures))) =
  (num <- struct_pack fmt_H refNum ;;
   prefix <- struct_pack fmt_I refPrefix ;;
   exp <- (t <- ext "time" (timegm_strptime (expiration ++ lit "UTC")) ;;
           struct_pack fmt_I t) ;;
   ops <- (count <- varint (len operations) ;;
           elements <- join operations ;;
           Ok (count ++ elements)) ;;
   exts <- varint 0 ;;
   sig <- match sigs with
          | None => Ok []
          | Some l => count <- varint (len l) ;;
                      elements <- join l ;;
                      Ok (count ++ elements)
          end ;;
   Ok (num ++ prefix ++ exp ++ ops ++ exts ++ sig)).
Proof.
  intros signatures. rewrite bytes_GrapheneObject.
  unfold Signed_Transaction_data. cbn [set_item String.eqb Ascii.eqb
    Bool.eqb].
  rewrite !fields_bytes_cons.
  change (field_bytes (Uint16 refNum)) with (struct_pack fmt_H refNum).
  change (field_bytes (Uint32 refPrefix)) with (struct_pack fmt_I refPrefix).
  change (field_bytes (PointInTime expiration))
    with (t <- ext "time" (timegm_strptime (expiration ++ lit "UTC")) ;;
          struct_pack fmt_I t).
  change (field_bytes (Array operations)) with (bytes (Array operations)).
  unfold Array at 1. rewrite bytes_Array_obj.
  change (bytes (Varint32 (len operations))) with (varint (len operations)).
  change (field_bytes (Set_ [])) with (@Ok bytestr [0]).
  assert (Hsig : field_bytes signatures =
                 match sigs with
                 | None => Ok []
                 | Some l => count <- varint (len l) ;;
                             elements <- join l ;;
                             Ok (count ++ elements)
                 end).
  { subst signatures. destruct sigs as [l |]; [ | reflexivity ].
    change (field_bytes (Array l)) with (bytes (Array l)).
    unfold Array. rewrite bytes_Array_obj. reflexivity. }
  rewrite Hsig.
  destruct (struct_pack fmt_H refNum); cbn [bind]; [ | reflexivity ].
  destruct (struct_pack fmt_I refPrefix); cbn [bind]; [ | reflexivity ].
  destruct (ext "time" (timegm_strptime (expiration ++ lit "UTC")));
    cbn [bind]; [ | reflexivity ].
  destruct (struct_pack fmt_I a1); cbn [bind]; [ | reflexivity ].
  destruct (varint (len operations)); cbn [bind]; [ | reflexivity ].
  destruct (join operations); cbn [bind]; [ | reflexivity ].
  destruct sigs as [l |]; cbn [bind fields_bytes].
  - destruct (varint (len l)); cbn [bind]; [ | reflexivity ].
    destruct (join l); cbn [bind]; [ | reflexivity ].
    rewrite app_nil_r. reflexivity.
  - reflexivity.
Qed.

(** *** Raw strings *)

(** C10.  A field holding a raw string is encoded as its UTF-8 bytes with
    no length in front, while the String codec puts the varint of the
    length first: the same text under the two wrappers gives different
    bytes. *)
Theorem raw_str_field_has_no_length_prefix (cls name : string) (s : text)
        (b : bytestr) :
  utf8 s = Ok b ->
  bytes (GrapheneObject cls (Some [(name, PyText s)])) = Ok b /\
  exists l,
    varint (len s) = Ok l /\ l <> [] /\
    bytes (GrapheneObject cls (Some [(name, String s)])) = Ok (l ++ b) /\
    l ++ b <> b.
Proof.
  intros Hb. split.
  - simpl. rewrite Hb. reflexivity.
  - destruct (varint_total (len s)) as (c & cs & Hl);
      [ unfold len; lia | ].
    exists (c :: cs). repeat split.
    + exact Hl.
    + discriminate.
    + simpl. rewrite Hl. simpl. rewrite Hb. reflexivity.
    + intros H. apply (f_equal (@List.length Z)) in H.
      simpl in H. rewrite length_app in H. lia.
Qed.

End WireProperties.

Lemma raw_str_field_example :
  utf8 (lit "abc") = Ok [97; 98; 99] /\
  bytes (fun _ => None)
        (GrapheneObject "Thing" (Some [("name", PyText (lit "abc"))]))
  = Ok [97; 98; 99] /\
  exists l,
    varint (len (lit "abc")) = Ok l /\ l <> [] /\
    bytes (fun _ => None)
          (GrapheneObject "Thing" (Some [("name", String (lit "abc"))]))
    = Ok (l ++ [97; 98; 99]) /\
    l ++ [97; 98; 99] <> [97; 98; 99].
Proof.
  split; [ reflexivity | ].
  apply (raw_str_field_has_no_length_prefix (fun _ => None) "Thing" "name"
           (lit "abc") [97; 98; 99]).
  reflexivity.
Defined.

(** ** Object ids *)

Lemma digit_not_space (c : Z) : is_digit c = true -> is_space c = false.
Proof.
  unfold is_digit, is_space. intros H.
  apply andb_prop in H. destruct H as [H1 H2].
  apply Z.leb_le in H1. apply Z.leb_le in H2.
  destruct (Z.leb_spec 9 c), (Z.leb_spec c 13), (Z.eqb_spec c 32);
    simpl; try reflexivity; lia.
Qed.

Lemma lstrip_digits (s : text) : forallb is_digit s = true -> lstrip s = s.
Proof.
  destruct s as [| c r]; simpl; [ reflexivity | ].
  intros H. apply andb_prop in H. destruct H as [Hc _].
  rewrite (digit_not_space c Hc). reflexivity.
Qed.

Lemma digit_range (c : Z) : is_digit c = true -> 48 <= c <= 57.
Proof.
  unfold is_digit. intros H. apply andb_prop in H. destruct H as [H1 H2].
  apply Z.leb_le in H1. apply Z.leb_le in H2. lia.
Qed.

(** A text of ASCII digits is read as it is. *)
Lemma transform_digits (s : text) :
  forallb is_digit s = true -> transform s = s.
Proof.
  intros H. unfold transform.
  assert (E : forallb (fun c => c <? 128) s = true).
  { apply forallb_forall. intros c Hc. rewrite forallb_forall in H.
    apply H in Hc. apply digit_range in Hc. apply Z.ltb_lt. lia. }
  rewrite E. reflexivity.
Qed.

(** The scan of a run of digits reads all of it. *)
Lemma scan_digits_digits (s : text) :
  forall acc digits prev,
    0 <= acc -> forallb is_digit s = true -> prev <> 95 ->
    exists v, scan_digits s acc digits prev = Some (v, digits + len s, [])
              /\ 0 <= v.
Proof.
  unfold len.
  induction s as [| c r IH]; intros acc digits prev Hacc Hd Hp.
  - cbn [scan_digits List.length].
    destruct (Z.eqb_spec prev 95); [ contradiction | ].
    exists acc. split; [ | exact Hacc ].
    cbn [Z.of_nat]. rewrite Z.add_0_r. reflexivity.
  - cbn [forallb] in Hd. apply andb_prop in Hd. destruct Hd as [Hc Hr].
    pose proof (digit_range c Hc) as Hrange.
    cbn [scan_digits]. rewrite Hc.
    destruct (IH (10 * acc + (c - 48)) (digits + 1) c) as (v & Ev & Hv);
      [ lia | exact Hr | lia | ].
    exists v. split; [ | exact Hv ].
    rewrite Ev.
    replace (digits + 1 + Z.of_nat (List.length r))
      with (digits + Z.of_nat (List.length (c :: r)))
      by (cbn [List.length]; lia).
    reflexivity.
Qed.

Lemma PyLong_FromString_digits (s : text) :
  is_nat_text s = true ->
  exists v,
    0 <= v /\
    PyLong_FromString s =
    (if (str_digits_check_threshold <? len s)
        && (0 <? max_str_digits) && (max_str_digits <? len s)
     then Raise ValueError else Ok v).
Proof.
  unfold is_nat_text. intros H. apply andb_prop in H. destruct H as [Hne Hd].
  unfold PyLong_FromString. rewrite (lstrip_digits s Hd).
  destruct s as [| c r]; [ discriminate | ].
  assert (Hc : 48 <= c <= 57)
    by (cbn [forallb] in Hd; apply andb_prop in Hd; apply digit_range; tauto).
  destruct (Z.eqb_spec c 43); [ lia | ].
  destruct (Z.eqb_spec c 45); [ lia | ].
  cbn [fst snd].
  destruct (Z.eqb_spec c 95); [ lia | ].
  destruct (scan_digits_digits (c :: r) 0 0 0) as (v & Ev & Hv);
    [ lia | exact Hd | lia | ].
  rewrite Ev. rewrite Z.add_0_l. exists v. split; [ exact Hv | ].
  destruct ((str_digits_check_threshold <? len (c :: r))
            && (0 <? max_str_digits) && (max_str_digits <? len (c :: r)));
    [ reflexivity | ].
  assert (Hlen : (len (c :: r) =? 0) = false)
    by (apply Z.eqb_neq; unfold len; cbn [List.length]; lia).
  rewrite Hlen. cbn [lstrip]. rewrite Z.mul_1_l. reflexivity.
Qed.

(** [int] reads a run of ASCII digits as a non-negative integer, as long as
    the run is not longer than the limit of the interpreter. *)
Lemma py_int_digits (s : text) :
  is_nat_text s = true -> len s <= max_str_digits ->
  exists v, py_int s = Ok v /\ 0 <= v.
Proof.
  intros H Hlen. unfold py_int.
  assert (Hd : forallb is_digit s = true)
    by (unfold is_nat_text in H; apply andb_prop in H; tauto).
  rewrite (transform_digits s Hd).
  destruct (PyLong_FromString_digits s H) as (v & Hv & E).
  exists v. split; [ | exact Hv ]. rewrite E.
  replace (max_str_digits <? len s) with false
    by (symmetry; apply Z.ltb_ge; exact Hlen).
  rewrite andb_false_r. reflexivity.
Qed.

(** A longer run is refused. *)
Lemma py_int_too_long (s : text) :
  is_nat_text s = true -> max_str_digits < len s ->
  py_int s = Raise ValueError.
Proof.
  intros H Hlen. unfold py_int.
  assert (Hd : forallb is_digit s = true)
    by (unfold is_nat_text in H; apply andb_prop in H; tauto).
  rewrite (transform_digits s Hd).
  destruct (PyLong_FromString_digits s H) as (v & Hv & E).
  rewrite E.
  replace (str_digits_check_threshold <? len s) with true
    by (symmetry; apply Z.ltb_lt; unfold str_digits_check_threshold;
        unfold max_str_digits in Hlen; lia).
  replace (max_str_digits <? len s) with true
    by (symmetry; apply Z.ltb_lt; exact Hlen).
  reflexivity.
Qed.

(** Construction succeeds exactly on three parts that [int] accepts, with a
    hint, if any, that names the parsed type. *)
Lemma ObjectId_ok_iff (object_str : text) (type_verify : option string)
      (o : value) :
  ObjectId object_str type_verify = Ok o <->
  exists space type id s t i,
    split object_str = [space; type; id] /\
    py_int space = Ok s /\ py_int type = Ok t /\ py_int id = Ok i /\
    hint_matches type_verify t = true /\
    o = ObjectId_obj s t (Id i) object_str.
Proof.
  unfold ObjectId, hint_matches. split.
  - destruct (split object_str) as [| space [| type [| id [| x r]]]] eqn:Hs;
      try discriminate.
    destruct (py_int space) as [s | e] eqn:Es; [ | discriminate ].
    destruct (py_int type) as [t | e] eqn:Et; [ | discriminate ].
    destruct (py_int id) as [i | e] eqn:Ei; [ | discriminate ].
    cbn [bind]. intros H.
    exists space, type, id, s, t, i.
    destruct type_verify as [[| c tv] |].
    + injection H as <-. repeat split; assumption || reflexivity.
    + destruct (lookup (String.String c tv) object_type) as [t' |];
        [ | discriminate ].
      destruct (t' =? t); [ | discriminate ].
      injection H as <-. repeat split; assumption || reflexivity.
    + injection H as <-. repeat split; assumption || reflexivity.
  - intros (space & type & id & s & t & i & Hs & Es & Et & Ei & Hh & ->).
    rewrite Hs, Es, Et, Ei. cbn [bind].
    destruct type_verify as [[| c tv] |]; try reflexivity.
    destruct (lookup (String.String c tv) object_type) as [t' |];
      [ | discriminate ].
    rewrite Hh. reflexivity.
Qed.

(** C9, as amended.  Construction of an ObjectId from a text raises exactly
    when the text does not split at the dots into three parts that [int]
    accepts, or when a requested, non-empty type_verify hint does not name
    the parsed type index.  Three runs of decimal digits, none longer than
    the 4300 digits that [int] reads, are always accepted and give a
    non-negative instance; a longer run is refused with ValueError, and
    [int] accepts more than runs of digits, a sign among it.  On success
    the wire form is only the varint of the instance: [00] for "1.3.0",
    [07] for "1.2.7", [80 01] for "1.2.128". *)
Theorem ObjectId_construction (timegm_strptime : text -> option Z)
        (object_str : text) (type_verify : option string) :
  (is_ok (ObjectId object_str type_verify) = true <->
   exists space type id s t i,
     split object_str = [space; type; id] /\
     py_int space = Ok s /\ py_int type = Ok t /\ py_int id = Ok i /\
     hint_matches type_verify t = true) /\
  (three_nonneg_ints object_str = true ->
   Forall (fun part => len part <= max_str_digits) (split object_str) ->
   exists space type id s t i,
     split object_str = [space; type; id] /\
     py_int space = Ok s /\ py_int type = Ok t /\ py_int id = Ok i /\
     0 <= i /\
     is_ok (ObjectId object_str type_verify) = hint_matches type_verify t) /\
  (three_nonneg_ints object_str = true ->
   Exists (fun part => max_str_digits < len part) (split object_str) ->
   ObjectId object_str type_verify = Raise ValueError) /\
  (forall o, ObjectId object_str type_verify = Ok o ->
             exists s t i, o = ObjectId_obj s t (Id i) object_str /\
                           bytes timegm_strptime o = varint i) /\
  (o <- ObjectId (lit "1.3.0") None ;; bytes timegm_strptime o) = Ok [0] /\
  (o <- ObjectId (lit "1.2.7") None ;; bytes timegm_strptime o) = Ok [7] /\
  (o <- ObjectId (lit "1.2.128") None ;; bytes timegm_strptime o)
  = Ok [128; 1].
Proof.
  split; [ | split; [ | split; [ | split; [ | repeat split; reflexivity ] ] ] ].
  - split.
    + destruct (ObjectId object_str type_verify) as [o | e] eqn:E;
        [ | discriminate ].
      intros _. apply ObjectId_ok_iff in E.
      destruct E as (space & type & id & s & t & i & H).
      exists space, type, id, s, t, i. tauto.
    + intros (space & type & id & s & t & i & Hs & Es & Et & Ei & Hh).
      assert (E : ObjectId object_str type_verify
                  = Ok (ObjectId_obj s t (Id i) object_str)).
      { apply ObjectId_ok_iff.
        exists space, type, id, s, t, i. repeat split; assumption. }
      rewrite E. reflexivity.
  - unfold three_nonneg_ints. intros H Hlen.
    destruct (split object_str) as [| space [| type [| id [| x r]]]] eqn:Hs;
      try discriminate.
    apply andb_prop in H. destruct H as [H Hid].
    apply andb_prop in H. destruct H as [Hspace Htype].
    inversion Hlen as [| ? ? Lspace Hlen1]; subst.
    inversion Hlen1 as [| ? ? Ltype Hlen2]; subst.
    inversion Hlen2 as [| ? ? Lid _]; subst.
    destruct (py_int_digits space Hspace Lspace) as (s & Es & _).
    destruct (py_int_digits type Htype Ltype) as (t & Et & _).
    destruct (py_int_digits id Hid Lid) as (i & Ei & Hi).
    exists space, type, id, s, t, i. repeat split; try assumption.
    unfold ObjectId. rewrite Hs, Es, Et, Ei. cbn [bind].
    unfold hint_matches.
    destruct type_verify as [[| c tv] |]; try reflexivity.
    destruct (lookup (String.String c tv) object_type) as [t' |];
      [ | reflexivity ].
    destruct (t' =? t); reflexivity.
  - unfold three_nonneg_ints. intros H Hlong.
    destruct (split object_str) as [| space [| type [| id [| x r]]]] eqn:Hs;
      try discriminate.
    apply andb_prop in H. destruct H as [H Hid].
    apply andb_prop in H. destruct H as [Hspace Htype].
    unfold ObjectId. rewrite Hs.
    destruct (Z.le_gt_cases (len space) max_str_digits) as [Lspace | Lspace];
      [ | rewrite (py_int_too_long space Hspace); [ reflexivity | lia ] ].
    destruct (py_int_digits space Hspace Lspace) as (s & -> & _).
    cbn [bind].
    destruct (Z.le_gt_cases (len type) max_str_digits) as [Ltype | Ltype];
      [ | rewrite (py_int_too_long type Htype); [ reflexivity | lia ] ].
    destruct (py_int_digits type Htype Ltype) as (t & -> & _).
    cbn [bind].
    destruct (Z.le_gt_cases (len id) max_str_digits) as [Lid | Lid];
      [ | rewrite (py_int_too_long id Hid); [ reflexivity | lia ] ].
    exfalso.
    inversion Hlong as [? ? Hx | ? ? Hlong1]; subst; [ lia | ].
    inversion Hlong1 as [? ? Hx | ? ? Hlong2]; subst; [ lia | ].
    inversion Hlong2 as [? ? Hx | ? ? Hlong3]; subst; [ lia | ].
    inversion Hlong3.
  - intros o E. apply ObjectId_ok_iff in E.
    destruct E as (space & type & id & s & t & i & _ & _ & _ & _ & _ & ->).
    exists s, t, i. split; reflexivity.
Qed.

Lemma ObjectId_construction_example :
  (three_nonneg_ints (lit "1.2.128") = true /\
   exists space type id s t i,
     split (lit "1.2.128") = [space; type; id] /\
     py_int space = Ok s /\ py_int type = Ok t /\ py_int id = Ok i /\
     0 <= i /\
     is_ok (ObjectId (lit "1.2.128") (Some "account"))
     = hint_matches (Some "account") t) /\
  three_nonneg_ints (lit "1.2." ++ repeat 49 4301) = true /\
  ObjectId (lit "1.2." ++ repeat 49 4301) None = Raise ValueError.
Proof.
  split; [ split; [ reflexivity | ] | split; [ vm_compute; reflexivity | ] ].
  - apply (ObjectId_construction (fun _ => None) (lit "1.2.128")
             (Some "account")).
    + reflexivity.
    + repeat constructor; unfold len, max_str_digits; cbn; lia.
  - apply (ObjectId_construction (fun _ => None)
             (lit "1.2." ++ repeat 49 4301) None).
    + vm_compute. reflexivity.
    + assert (Hs : split (lit "1.2." ++ repeat 49 4301)
                   = [[49]; [50]; repeat 49 4301])
        by (vm_compute; reflexivity).
      rewrite Hs. apply Exists_cons_tl, Exists_cons_tl, Exists_cons_hd.
      unfold len, max_str_digits. rewrite repeat_length. lia.
Defined.

(** The claim as the spec words it fails on a negative part: "1.2.-7" is
    not three non-negative integers, no hint is given, and construction
    succeeds all the same, with instance -7. *)
Lemma ObjectId_accepts_negative_instance :
  three_nonneg_ints (lit "1.2.-7") = false /\
  ObjectId (lit "1.2.-7") None
  = Ok (ObjectId_obj 1 2 (Id (-7)) (lit "1.2.-7")).
Proof. split; reflexivity. Qed.

(** ** JSON rendering *)

Section JsonProperties.

Variable json_loads : text -> option json.
Variable json_dumps : json -> text.

Local Abbreviation str := (str json_loads json_dumps).
Local Abbreviation JsonObj := (JsonObj json_loads json_dumps).
Local Abbreviation json_loop := (json_loop json_loads json_dumps).
Local Abbreviation GrapheneObject__json__ :=
  (GrapheneObject__json__ json_loads json_dumps).

(** The text of a composite is the dump of its [__json__]. *)
Lemma str_GrapheneObject (cls : string)
      (data : option (list (string * value))) :
  str (GrapheneObject cls data) =
  (d <- GrapheneObject__json__ data ;; Ok (json_dumps (JObject d))).
Proof. destruct data; reflexivity. Qed.

Lemma json_loop_cons (name : string) (v : value)
      (rest : list (string * value)) (d : list (string * json)) :
  json_loop ((name, v) :: rest) d =
  if skipped v then json_loop rest d
  else match JsonObj v with
       | Ok j => json_loop rest (update d name j)
       | Raise _ =>
           s <- str v ;; json_loop rest (update d name (JString s))
       end.
Proof. reflexivity. Qed.

(** Every optional whose inner value is true in the sense of [bool] is
    left out, whatever it holds. *)
Lemma json_loop_skips_truthy (name : string) (inner : value)
      (rest : list (string * value)) (d : list (string * json)) :
  truthy inner = true ->
  json_loop ((name, Optional inner) :: rest) d = json_loop rest d.
Proof.
  intros H. rewrite json_loop_cons. unfold skipped, isempty.
  rewrite H. reflexivity.
Qed.

(** C7.  The claim is that the JSON rendering leaves out a field holding
    an absent optional and shows every field holding a present optional
    under its name.  The code does the opposite: [isempty] returns
    [bool(self.data)], which is true for every codec instance, so a
    present optional (here [Optional(Uint8(1))], wire bytes [01 01]) is
    left out; an optional is left out exactly when its inner value is
    true, and is otherwise rendered as that inner value; the optional
    holding [None] is shown. *)
Theorem json_omits_present_optional (timegm_strptime : text -> option Z) :
  bytes timegm_strptime (Optional (Uint8 1)) = Ok [1; 1] /\
  GrapheneObject__json__ (Some [("memo", Optional (Uint8 1))]) = Ok [] /\
  (forall (name : string) (inner : value) (rest : list (string * value))
          (d : list (string * json)),
      json_loop ((name, Optional inner) :: rest) d =
      if truthy inner then json_loop rest d
      else json_loop ((name, inner) :: rest) d) /\
  exists j, GrapheneObject__json__ (Some [("memo", Optional PyNone)])
            = Ok [("memo", j)].
Proof.
  split; [ reflexivity | split; [ reflexivity | split ] ].
  - intros name inner rest d.
    destruct (truthy inner) eqn:E;
      [ apply json_loop_skips_truthy; exact E | ].
    destruct inner as [| [| c r] | | | | | | | | | | | | | | | | | | | | |];
      try discriminate E; reflexivity.
  - cbn.
    match goal with
    | |- context [json_loads ?x] => destruct (json_loads x) as [j |]
    end; cbn; eauto.
Qed.

End JsonProperties.

(** ** Which exceptions the encoders raise *)







Section EncoderErrors.

Variable timegm_strptime : text -> option Z.

Local Abbreviation bytes := (bytes timegm_strptime).
Local Abbreviation join := (join timegm_strptime).
Local Abbreviation field_bytes := (field_bytes timegm_strptime).
Local Abbreviation fields_bytes := (fields_bytes timegm_strptime).




Lemma bytes_String (d : text) :
  bytes (String d) = (l <- varint (len d) ;; b <- utf8 d ;; Ok (l ++ b)).
Proof. reflexivity. Qed.


Lemma bytes_PointInTime (d : text) :
  bytes (PointInTime d) =
  (t <- ext "time" (timegm_strptime (d ++ lit "UTC")) ;;
   struct_pack fmt_I t).
Proof. reflexivity. Qed.


End EncoderErrors.

(** ** The signer *)

Section SignerProperties.

Context {L : Libraries}.
Variable timegm_strptime : text -> option Z.

Lemma length_be_bytes (w : nat) : forall n, List.length (be_bytes w n) = w.
Proof.
  induction w as [| k IH]; intros n; [ reflexivity | ].
  cbn [be_bytes]. rewrite length_app, IH. simpl. lia.
Qed.

Lemma sigencode_string_length (r s : Z) (signature : bytestr) :
  sigencode_string r s = Ok signature -> List.length signature = 64%nat.
Proof.
  unfold sigencode_string, number_to_string. intros H.
  destruct ((0 <=? r) && (r <? 2 ^ 256)); [ | discriminate H ].
  destruct ((0 <=? s) && (s <? 2 ^ 256)); [ | discriminate H ].
  cbn [bind] in H.
  assert (E : signature = be_bytes 32 r ++ be_bytes 32 s) by congruence.
  rewrite E, length_app, !length_be_bytes. reflexivity.
Qed.

(** *** The recovery parameter *)

Lemma recover_loop_cons (digest signature : bytestr) (pubkey : VerifyingKey)
      (i : Z) (rest : list Z) :
  recover_loop digest signature pubkey (i :: rest) =
  (m <- key_matches digest signature pubkey i ;;
   if m then Ok (Some i) else recover_loop digest signature pubkey rest).
Proof.
  unfold key_matches. cbn [recover_loop].
  destruct (recover_public_key digest signature i) as [[p |] | e];
    reflexivity.
Qed.

(** The loop returns the first index of the range whose key matches, all
    the keys before it having been recovered and found different. *)
Lemma recover_loop_first (digest signature : bytestr) (pubkey : VerifyingKey)
      (range : list Z) (i : Z) :
  recover_loop digest signature pubkey range = Ok (Some i) <->
  exists pre post,
    range = pre ++ i :: post /\
    Forall (fun j => key_matches digest signature pubkey j = Ok false) pre /\
    key_matches digest signature pubkey i = Ok true.
Proof.
  induction range as [| j rest IH].
  - split; [ discriminate | ].
    intros (pre & post & H & _). destruct pre; discriminate H.
  - rewrite recover_loop_cons. split.
    + destruct (key_matches digest signature pubkey j) as [[|] | e] eqn:E;
        cbn [bind]; intros H; try discriminate H.
      * injection H as <-. exists [], rest. repeat split; auto.
      * apply IH in H. destruct H as (pre & post & -> & Hpre & Hi).
        exists (j :: pre), post. repeat split; auto.
    + intros (pre & post & H & Hpre & Hi).
      destruct pre as [| j' pre]; cbn [app] in H; injection H as -> ->.
      * rewrite Hi. reflexivity.
      * inversion Hpre as [| ? ? Hj Hpre']; subst.
        rewrite Hj. cbn [bind]. apply IH. exists pre, post. auto.
Qed.

Lemma recover_loop_none (digest signature : bytestr) (pubkey : VerifyingKey)
      (range : list Z) :
  recover_loop digest signature pubkey range = Ok None <->
  Forall (fun j => key_matches digest signature pubkey j = Ok false) range.
Proof.
  induction range as [| j rest IH].
  - split; [ constructor | reflexivity ].
  - rewrite recover_loop_cons. split.
    + destruct (key_matches digest signature pubkey j) as [[|] | e] eqn:E;
        cbn [bind]; intros H; try discriminate H.
      constructor; [ exact E | apply IH; exact H ].
    + intros H. inversion H as [| ? ? Hj Hrest]; subst.
      rewrite Hj. cbn [bind]. apply IH. exact Hrest.
Qed.

Lemma recoverPubkeyParameter_range (digest signature : bytestr)
      (pubkey : VerifyingKey) (i : Z) :
  recoverPubkeyParameter digest signature pubkey = Ok (Some i) ->
  In i [0; 1; 2; 3].
Proof.
  unfold recoverPubkeyParameter. intros H. apply recover_loop_first in H.
  destruct H as (pre & post & H & _). rewrite H. apply in_elt.
Qed.

(** *** One attempt and the search *)

Lemma attempt_found (sk : SigningKey) (digest : bytestr) (w w' : entropy)
      (header : Z) (signature : bytestr) :
  attempt sk digest w = (Ok (Some (header, signature)), w') ->
  exists sigder r s i,
    sign_digest sk digest w = (Some sigder, w') /\
    sigdecode_der sigder = Some (r, s) /\
    sigencode_string r s = Ok signature /\
    index sigder 3 = Ok 32 /\
    index sigder (5 + 32) = Ok 32 /\
    recoverPubkeyParameter digest signature (get_verifying_key sk)
    = Ok (Some i) /\
    header = i + 4 + 27.
Proof.
  unfold attempt.
  destruct (sign_digest sk digest w) as [[sigder |] w1] eqn:Ew;
    [ | intros H; discriminate H ].
  cbn [ext bind].
  destruct (sigdecode_der sigder) as [[r s] |] eqn:Ed;
    [ | intros H; discriminate H ].
  cbn [ext bind].
  destruct (sigencode_string r s) as [sg | e] eqn:Es;
    [ | intros H; discriminate H ].
  cbn [bind].
  destruct (index sigder 3) as [lenR | e] eqn:ER;
    [ | intros H; discriminate H ].
  cbn [bind].
  destruct (index sigder (5 + lenR)) as [lenS | e] eqn:ES;
    [ | intros H; discriminate H ].
  cbn [bind].
  destruct (Z.eqb_spec lenR 32) as [-> | HR]; cbn [andb];
    [ | intros H; discriminate H ].
  destruct (Z.eqb_spec lenS 32) as [-> | HS];
    [ | intros H; discriminate H ].
  destruct (recoverPubkeyParameter digest sg (get_verifying_key sk))
    as [[i |] | e] eqn:Ei; cbn [bind]; intros H; try discriminate H.
  injection H as <- <- <-.
  exists sigder, r, s, i. repeat split; auto.
Qed.

(** The loop goes round again only when the two DER lengths fail the
    test. *)
Lemma attempt_again (sk : SigningKey) (digest : bytestr) (w w' : entropy) :
  attempt sk digest w = (Ok None, w') ->
  exists sigder lenR lenS,
    sign_digest sk digest w = (Some sigder, w') /\
    index sigder 3 = Ok lenR /\
    index sigder (5 + lenR) = Ok lenS /\
    (lenR =? 32) && (lenS =? 32) = false.
Proof.
  unfold attempt.
  destruct (sign_digest sk digest w) as [[sigder |] w1] eqn:Ew;
    [ | intros H; discriminate H ].
  cbn [ext bind].
  destruct (sigdecode_der sigder) as [[r s] |] eqn:Ed;
    [ | intros H; discriminate H ].
  cbn [ext bind].
  destruct (sigencode_string r s) as [sg | e];
    [ | intros H; discriminate H ].
  cbn [bind].
  destruct (index sigder 3) as [lenR | e] eqn:ER;
    [ | intros H; discriminate H ].
  cbn [bind].
  destruct (index sigder (5 + lenR)) as [lenS | e] eqn:ES;
    [ | intros H; discriminate H ].
  cbn [bind].
  destruct ((lenR =? 32) && (lenS =? 32)) eqn:Etest.
  - destruct (recoverPubkeyParameter digest sg (get_verifying_key sk))
      as [[i |] | e]; cbn [bind]; intros H; discriminate H.
  - intros H. injection H as <-.
    exists sigder, lenR, lenS. repeat split; auto.
Qed.

(** What an attempt gives when the DER lengths pass the test. *)
Lemma attempt_canonical (sk : SigningKey) (digest : bytestr) (w w' : entropy)
      (sigder : bytestr) (r s : Z) (signature : bytestr) :
  sign_digest sk digest w = (Some sigder, w') ->
  sigdecode_der sigder = Some (r, s) ->
  sigencode_string r s = Ok signature ->
  index sigder 3 = Ok 32 ->
  index sigder (5 + 32) = Ok 32 ->
  attempt sk digest w =
  (i <- recoverPubkeyParameter digest signature (get_verifying_key sk) ;;
   match i with
   | None => Raise TypeError
   | Some i => Ok (Some (i + 4 + 27, signature))
   end,
   w').
Proof.
  intros H1 H2 H3 H4 H5. unfold attempt. rewrite H1. cbn [ext bind].
  rewrite H2. cbn [ext bind]. rewrite H3. cbn [bind].
  rewrite H4. cbn [bind]. rewrite H5. cbn [bind]. reflexivity.
Qed.

Lemma search_step (fuel : nat) (sk : SigningKey) (digest : bytestr)
      (w : entropy) :
  search (S fuel) sk digest w =
  match attempt sk digest w with
  | (Raise e, w) => (Some (Raise e), w)
  | (Ok (Some found), w) => (Some (Ok found), w)
  | (Ok None, w) => search fuel sk digest w
  end.
Proof. reflexivity. Qed.

(** A signature that leaves the loop left it at a [break]. *)
Lemma search_found (fuel : nat) (sk : SigningKey) (digest : bytestr) :
  forall (w w' : entropy) (found : Z * bytestr),
    search fuel sk digest w = (Some (Ok found), w') ->
    exists w0, attempt sk digest w0 = (Ok (Some found), w').
Proof.
  induction fuel as [| k IH]; intros w w' found H; [ discriminate H | ].
  rewrite search_step in H.
  destruct (attempt sk digest w) as [[[f |] | e] w1] eqn:E.
  - injection H as <- <-. exists w. exact E.
  - apply IH in H. exact H.
  - discriminate H.
Qed.

(** The search returns as soon as an attempt does: with the fuel for the
    attempts that fail the length test and one more, it ends with the first
    attempt that passes it. *)
Lemma search_total (sk : SigningKey) (digest : bytestr) (n : nat) :
  forall (w w' : entropy) (r : result (Z * bytestr)) (fuel : nat),
    (n < fuel)%nat ->
    search n sk digest w = (None, w') ->
    search 1 sk digest w' = (Some r, snd (attempt sk digest w')) ->
    search fuel sk digest w = (Some r, snd (attempt sk digest w')).
Proof.
  induction n as [| k IH]; intros w w' r fuel Hf Hn H1.
  - injection Hn as <-.
    destruct fuel as [| f]; [ lia | ].
    rewrite search_step in *.
    destruct (attempt sk digest w) as [[[x |] | e] w1]; try exact H1.
    discriminate H1.
  - destruct fuel as [| f]; [ lia | ].
    rewrite search_step in Hn. rewrite search_step.
    destruct (attempt sk digest w) as [[[x |] | e] w1]; try discriminate Hn.
    apply IH with (w' := w'); [ lia | exact Hn | exact H1 ].
Qed.

End SignerProperties.

Section SignTheorems.

Context {L : Libraries}.
Variable timegm_strptime : text -> option Z.

Lemma lookup_set_item (d : list (string * value)) (k : string) (v : value) :
  lookup k (set_item d k v) = Some v.
Proof.
  induction d as [| [k' v'] r IH]; cbn [set_item lookup].
  - rewrite String.eqb_refl. reflexivity.
  - destruct (String.eqb k k') eqn:E; cbn [lookup]; rewrite E;
      [ reflexivity | exact IH ].
Qed.

Lemma sigstr_header (i : Z) (signature : bytestr) :
  In i [0; 1; 2; 3] ->
  sigstr (i + 4 + 27, signature) = Ok (i + 4 + 27 :: signature) /\
  In (i + 4 + 27) [31; 32; 33; 34].
Proof.
  intros [<- | [<- | [<- | [<- | []]]]]; split; try reflexivity;
    simpl; tauto.
Qed.

(** Every signature the key loop appends is canonical. *)
Lemma sign_keys_signatures (fuel : nat) (digest : bytestr)
      (keys : list text) :
  forall (sigs0 : list value) (w : entropy) (sigs : list value)
         (w' : entropy),
    sign_keys fuel digest keys sigs0 w = (Some (Ok sigs), w') ->
    exists blobs,
      sigs = sigs0 ++ map Signature blobs /\
      List.length blobs = List.length keys /\
      Forall (fun blob => List.length blob = 65%nat /\
                          exists sk, canonical_signature sk digest blob)
             blobs.
Proof.
  induction keys as [| wif rest IH]; intros sigs0 w sigs w' H.
  - cbn [sign_keys] in H. injection H as <- <-.
    exists []. rewrite app_nil_r. repeat split. constructor.
  - cbn [sign_keys] in H.
    destruct (p <- ext "account" (PrivateKey wif) ;;
              ext "ecdsa" (SigningKey_from_string p)) as [sk | e];
      [ | discriminate H ].
    destruct (search fuel sk digest w) as [[[found | e] |] w1] eqn:Es;
      try discriminate H.
    destruct found as [header signature].
    apply search_found in Es. destruct Es as (w0 & Ea).
    apply attempt_found in Ea.
    destruct Ea as (sigder & r & s & i & Hw & Hd & He & HR & HS & Hi & ->).
    destruct (sigstr_header i signature
                (recoverPubkeyParameter_range _ _ _ _ Hi)) as [Hstr Hin].
    rewrite Hstr in H. apply IH in H.
    destruct H as (blobs & -> & Hlen & Hall).
    exists ((i + 4 + 27 :: signature) :: blobs).
    rewrite <- app_assoc. repeat split.
    + cbn [List.length]. rewrite Hlen. reflexivity.
    + constructor; [ | exact Hall ]. split.
      * cbn [List.length]. rewrite (sigencode_string_length r s signature He).
        reflexivity.
      * exists sk, w0, sigder, r, s, (i + 4 + 27), signature.
        rewrite Hw. repeat split; auto.
        replace (i + 4 + 27 - 31) with i by lia. exact Hi.
Qed.

(** C1.  Every signature that sign appends to the transaction is a blob
    of 65 bytes, header then r then s, cut from a DER signature whose two
    length octets lenR and lenS are 32, and its header byte is one of 31,
    32, 33, 34: the recovery index 0..3 plus 4 plus 27. *)
Theorem sign_appends_canonical_signatures (fuel : nat)
        (self : Signed_Transaction) (wifkeys : list text) (chain : chain_arg)
        (w : entropy) (self' : Signed_Transaction) (w' : entropy) :
  sign timegm_strptime fuel self wifkeys chain w = (Returned, self', w') ->
  exists (d : bytestr) (blobs : list bytestr),
    digest self' = Some d /\
    lookup "signatures" (data self') = Some (Array (map Signature blobs)) /\
    List.length blobs = List.length (unique wifkeys []) /\
    Forall (fun blob => List.length blob = 65%nat /\
                        exists sk, canonical_signature sk d blob) blobs.
Proof.
  unfold sign. intros H.
  destruct (chain_params_of chain) as [chain_params | e];
    [ | discriminate H ].
  destruct (lookup "chain_id" chain_params) as [chain_id |];
    [ | discriminate H ].
  match type of H with
  | match ?x with _ => _ end = _ => destruct x as [m | e]
  end; [ | discriminate H ].
  cbn [data privkeys chainid message digest] in H.
  destruct (sign_keys fuel (sha256 m) (unique wifkeys []) [] w)
    as [[[sigs | e] |] w1] eqn:Ek; try discriminate H.
  injection H as <- <-.
  apply sign_keys_signatures in Ek.
  destruct Ek as (blobs & -> & Hlen & Hall).
  exists (sha256 m), blobs. cbn [data digest app].
  rewrite lookup_set_item. repeat split; auto.
Qed.

(** *** Which exceptions the signing loop raises *)







(** *** Bad chain descriptors *)



(** *** The digest *)

Lemma fields_bytes_app (xs ys : list (string * value)) :
  forall b,
    fields_bytes timegm_strptime (xs ++ ys) b =
    (x <- fields_bytes timegm_strptime xs b ;;
     fields_bytes timegm_strptime ys x).
Proof.
  induction xs as [| [n v] r IH]; intros b; [ reflexivity | ].
  cbn [app fields_bytes].
  destruct (field_bytes timegm_strptime v) as [x | e]; cbn [bind];
    [ apply IH | reflexivity ].
Qed.

(** Whatever the transaction holds when sign is called, the message is the
    hex-decoded chain_id followed by its wire bytes at that moment, the
    digest is the SHA-256 of the message, and the loop over the keys runs
    on that digest. *)
Lemma sign_message (fuel : nat) (self : Signed_Transaction)
      (wifkeys : list text) (chain : chain_arg) (w : entropy)
      (chain_params : list (string * text)) (chain_id : text)
      (h b : bytestr) :
  chain_params_of chain = Ok chain_params ->
  lookup "chain_id" chain_params = Some chain_id ->
  unhexlify chain_id = Ok h ->
  wire timegm_strptime self = Ok b ->
  let run := sign timegm_strptime fuel self wifkeys chain w in
  let keys := sign_keys fuel (sha256 (h ++ b)) (unique wifkeys []) [] w in
  message (snd (fst run)) = Some (h ++ b) /\
  digest (snd (fst run)) = Some (sha256 (h ++ b)) /\
  fst (fst run) = outcome_of (fst keys) /\
  snd run = snd keys.
Proof.
  intros Hc Hi Hh Hw run keys.
  subst run keys. unfold sign. rewrite Hc, Hi, Hh. cbn [bind].
  change (wire timegm_strptime
            {| data := data self;
               privkeys := Some (unique wifkeys []);
               chainid := Some chain_id;
               message := message self;
               digest := digest self |})
    with (wire timegm_strptime self).
  rewrite Hw. cbn [bind data privkeys chainid message digest].
  destruct (sign_keys fuel (sha256 (h ++ b)) (unique wifkeys []) [] w)
    as [[[sigs | e] |] w1]; repeat split; reflexivity.
Qed.

(** C2.  sign computes the digest it signs as the SHA-256 of the
    hex-decoded chain_id followed by the wire bytes of the transaction as
    it stands before the signatures are set: for a transaction fresh from
    its constructor these are the bytes of the five fields before
    signatures, the void placeholder adding none.  That digest is stored
    in the object and is the one handed to the loop over the keys. *)
Theorem sign_digest_is_sha256_of_chain_id_and_wire (fuel : nat)
        (refNum refPrefix : Z) (expiration : text) (operations : list value)
        (wifkeys : list text) (chain : chain_arg) (w : entropy)
        (chain_params : list (string * text)) (chain_id : text)
        (h b : bytestr) :
  chain_params_of chain = Ok chain_params ->
  lookup "chain_id" chain_params = Some chain_id ->
  unhexlify chain_id = Ok h ->
  fields_bytes timegm_strptime
    [ ("ref_block_num", Uint16 refNum);
      ("ref_block_prefix", Uint32 refPrefix);
      ("expiration", PointInTime expiration);
      ("operations", Array operations);
      ("extensions", Set_ []) ] [] = Ok b ->
  let self := Signed_Transaction_init refNum refPrefix expiration operations in
  let run := sign timegm_strptime fuel self wifkeys chain w in
  let keys := sign_keys fuel (sha256 (h ++ b)) (unique wifkeys []) [] w in
  bytes timegm_strptime Void = Ok [] /\
  wire timegm_strptime self = Ok b /\
  message (snd (fst run)) = Some (h ++ b) /\
  digest (snd (fst run)) = Some (sha256 (h ++ b)) /\
  fst (fst run) = outcome_of (fst keys) /\
  snd run = snd keys.
Proof.
  intros Hc Hi Hh Hb self run keys.
  assert (Hw : wire timegm_strptime self = Ok b).
  { unfold wire, self, Signed_Transaction_init. cbn [data].
    rewrite bytes_GrapheneObject. unfold Signed_Transaction_data.
    change [("ref_block_num", Uint16 refNum);
            ("ref_block_prefix", Uint32 refPrefix);
            ("expiration", PointInTime expiration);
            ("operations", Array operations);
            ("extensions", Set_ []);
            ("signatures", Void)]
      with ([("ref_block_num", Uint16 refNum);
             ("ref_block_prefix", Uint32 refPrefix);
             ("expiration", PointInTime expiration);
             ("operations", Array operations);
             ("extensions", Set_ [])] ++ [("signatures", Void)]).
    rewrite fields_bytes_app, Hb. cbn [bind fields_bytes field_bytes bytes].
    rewrite app_nil_r. reflexivity. }
  split; [ reflexivity | split; [ exact Hw | ] ].
  exact (sign_message fuel self wifkeys chain w chain_params chain_id h b
           Hc Hi Hh Hw).
Qed.

(** *** The recovery parameter and the retry *)

(** C5, as amended.  For an attempt whose DER lengths pass the test, the
    recovery parameter is the first i of 0, 1, 2, 3 whose recovered key
    equals the signer's key, and the search ends with header i + 31; when
    no i matches, recoverPubkeyParameter returns None and the search ends
    there too, without a signature: no new attempt is made.  The loop goes
    round again only when the DER lengths fail the test. *)
Theorem recovery_parameter_first_match_no_retry (sk : SigningKey)
        (digest : bytestr) (w w' : entropy) (sigder : bytestr) (r s : Z)
        (signature : bytestr) :
  sign_digest sk digest w = (Some sigder, w') ->
  sigdecode_der sigder = Some (r, s) ->
  sigencode_string r s = Ok signature ->
  index sigder 3 = Ok 32 ->
  index sigder (5 + 32) = Ok 32 ->
  let pubkey := get_verifying_key sk in
  let found := recoverPubkeyParameter digest signature pubkey in
  let differs j := key_matches digest signature pubkey j = Ok false in
  (forall i,
      found = Ok (Some i) <->
      In i [0; 1; 2; 3] /\
      key_matches digest signature pubkey i = Ok true /\
      forall j, In j [0; 1; 2; 3] -> j < i -> differs j) /\
  (found = Ok None <-> forall j, In j [0; 1; 2; 3] -> differs j) /\
  (forall i fuel,
      found = Ok (Some i) ->
      search (S fuel) sk digest w = (Some (Ok (i + 4 + 27, signature)), w')) /\
  (forall fuel,
      found = Ok None ->
      search (S fuel) sk digest w = (Some (Raise TypeError), w')) /\
  (forall w0 w1,
      attempt sk digest w0 = (Ok None, w1) ->
      exists sigder0 lenR lenS,
        sign_digest sk digest w0 = (Some sigder0, w1) /\
        index sigder0 3 = Ok lenR /\
        index sigder0 (5 + lenR) = Ok lenS /\
        (lenR =? 32) && (lenS =? 32) = false).
Proof.
  intros Hw Hd He HR HS pubkey found differs.
  pose proof (attempt_canonical sk digest w w' sigder r s signature
                Hw Hd He HR HS) as Ha.
  fold pubkey in Ha. fold found in Ha.
  split; [ | split; [ | split; [ | split ] ] ].
  - intros i. subst found. unfold recoverPubkeyParameter.
    rewrite recover_loop_first. split.
    + intros (pre & post & Hr & Hpre & Hi). split; [ | split ].
      * rewrite Hr. apply in_elt.
      * exact Hi.
      * intros j Hj Hlt. rewrite Forall_forall in Hpre.
        assert (Hcases : In j pre \/ j = i \/ In j post).
        { rewrite Hr in Hj. apply in_app_or in Hj.
          destruct Hj as [Hj | [Hj | Hj]]; auto. }
        destruct Hcases as [Hj' | [-> | Hj']];
          [ apply Hpre; exact Hj' | lia | ].
        exfalso.
        assert (Hsorted : forall pre post : list Z,
                   [0; 1; 2; 3] = pre ++ i :: post ->
                   forall j, In j post -> i < j).
        { clear. intros pre post H j Hj.
          destruct pre as [| a [| b [| c [| d pre]]]]; cbn [app] in H;
            injection H; intros; subst; cbn [In] in Hj;
              try (destruct pre; discriminate); intuition lia. }
        specialize (Hsorted pre post Hr j Hj'). lia.
    + intros (Hin & Hi & Hbefore).
      cbn [In] in Hin.
      destruct Hin as [<- | [<- | [<- | [<- | []]]]].
      * exists [], [1; 2; 3]. repeat split; auto.
      * exists [0], [2; 3]. repeat split; auto.
        repeat constructor; apply Hbefore; cbn [In]; auto; lia.
      * exists [0; 1], [3]. repeat split; auto.
        repeat constructor; apply Hbefore; cbn [In]; auto; lia.
      * exists [0; 1; 2], []. repeat split; auto.
        repeat constructor; apply Hbefore; cbn [In]; auto; lia.
  - subst found. unfold recoverPubkeyParameter.
    rewrite recover_loop_none, Forall_forall. reflexivity.
  - intros i fuel Hi. rewrite search_step, Ha, Hi. reflexivity.
  - intros fuel Hn. rewrite search_step, Ha, Hn. reflexivity.
  - intros w0 w1. apply attempt_again.
Qed.

End SignTheorems.

(** ** Runs on the small instance *)

(** Two keys after deduplication, one rejected short signature, two
    signatures of 65 bytes with headers 32 and 34. *)
Lemma sign_appends_canonical_signatures_example :
  toy_run = (Returned, snd (fst toy_run), snd toy_run) /\
  exists (d : bytestr) (blobs : list bytestr),
    digest (snd (fst toy_run)) = Some d /\
    lookup "signatures" (data (snd (fst toy_run)))
    = Some (Array (map Signature blobs)) /\
    List.length blobs = List.length (unique toy_keys []) /\
    Forall (fun blob => List.length blob = 65%nat /\
                        exists sk, canonical_signature (L := toy) sk d blob)
           blobs.
Proof.
  assert (H : toy_run = (Returned, snd (fst toy_run), snd toy_run))
    by (vm_compute; reflexivity).
  split; [ exact H | ].
  exact (sign_appends_canonical_signatures (L := toy) toy_time 5 toy_tx
           toy_keys (ChainName "GPH") toy_entropy
           (snd (fst toy_run)) (snd toy_run) H).
Defined.

Lemma sign_digest_example :
  unhexlify
    (lit "b8d1603965b3eb1acba27e62ff59f74efa3154d43a4188d381088ac7cdf35539")
  = Ok toy_chain_id /\
  wire toy_time toy_tx = Ok toy_wire /\
  message (snd (fst toy_run)) = Some (toy_chain_id ++ toy_wire) /\
  digest (snd (fst toy_run))
  = Some (sha256 (Libraries := toy) (toy_chain_id ++ toy_wire)).
Proof.
  assert (Hh : unhexlify
                 (lit "b8d1603965b3eb1acba27e62ff59f74efa3154d43a4188d381088ac7cdf35539")
               = Ok toy_chain_id) by (vm_compute; reflexivity).
  split; [ exact Hh | ].
  destruct (sign_digest_is_sha256_of_chain_id_and_wire (L := toy) toy_time 5
              1 2 (lit "2016-01-01T00:00:00") [] toy_keys (ChainName "GPH")
              toy_entropy
              [ ("chain_id",
                 lit "b8d1603965b3eb1acba27e62ff59f74efa3154d43a4188d381088ac7cdf35539");
                ("core_symbol", lit "CORE"); ("prefix", lit "GPH") ]
              (lit "b8d1603965b3eb1acba27e62ff59f74efa3154d43a4188d381088ac7cdf35539")
              toy_chain_id toy_wire eq_refl eq_refl Hh eq_refl)
    as (_ & Hw & Hm & Hd & _).
  split; [ exact Hw | split; [ exact Hm | exact Hd ] ].
Defined.



(** A canonical attempt whose recovered keys 100..103 all differ from the
    signer's key 5: the search ends on it and the next signature of the
    entropy source is never asked for. *)
Lemma recovery_parameter_no_retry_example :
  recoverPubkeyParameter (L := toy) [1] (toy_signature 100) [5] = Ok None /\
  search (L := toy) 3 [5] [1] [toy_der 100; toy_der 4]
  = (Some (Raise TypeError), [toy_der 4]).
Proof.
  assert (Hn : recoverPubkeyParameter (L := toy) [1] (toy_signature 100) [5]
               = Ok None) by (vm_compute; reflexivity).
  split; [ exact Hn | ].
  assert (He : sigencode_string (be_decode (repeat 17 32))
                                (be_decode (repeat 34 31 ++ [100]))
               = Ok (toy_signature 100)) by (vm_compute; reflexivity).
  destruct (recovery_parameter_first_match_no_retry (L := toy)
              [5] [1] [toy_der 100; toy_der 4] [toy_der 4] (toy_der 100)
              (be_decode (repeat 17 32)) (be_decode (repeat 34 31 ++ [100]))
              (toy_signature 100) eq_refl eq_refl He eq_refl eq_refl)
    as (_ & _ & _ & Hnone & _).
  exact (Hnone 2%nat Hn).
Defined.

(** The claim as the spec words it fails here: the first attempt passes the
    length test and no index matches, a second attempt would have matched
    at index 1, and the search raises instead of making it. *)
Lemma no_match_is_not_retried :
  recoverPubkeyParameter (L := toy) [1] (toy_signature 100) [5] = Ok None /\
  search (L := toy) 5 [5] [1] [toy_der 4]
  = (Some (Ok (32, toy_signature 4)), []) /\
  search (L := toy) 5 [5] [1] [toy_der 100; toy_der 4]
  = (Some (Raise TypeError), [toy_der 4]) /\
  search (L := toy) 5 [5] [1] [toy_der 100; toy_der 4]
  <> search (L := toy) 4 [5] [1] [toy_der 4].
Proof.
  repeat split; try (vm_compute; reflexivity).
  vm_compute. discriminate.
Qed.

(** * Further properties of the module *)

(** ** Varint *)

(** Induction along the loop of [varint]: a number below 128 is its own
    single byte, a larger one is a continuation byte followed by the
    encoding of the number shifted right by seven bits. *)
Lemma varint_induction (P : Z -> bytestr -> Prop) :
  (forall n, 0 <= n < 128 -> P n [n]) ->
  (forall n r,
      128 <= n -> varint (Z.shiftr n 7) = Ok r -> P (Z.shiftr n 7) r ->
      P n (Z.lor (Z.land n 127) 128 :: r)) ->
  forall n bs, 0 <= n -> varint n = Ok bs -> P n bs.
Proof.
  intros Hbase Hstep n bs Hn. revert bs.
  pattern n. apply Zlt_0_ind; [ | exact Hn ].
  clear n Hn. intros n IH Hn bs E.
  rewrite varint_unfold in E.
  destruct (Z.leb_spec 128 n) as [Hbig | Hsmall].
  - apply bind_ok in E. destruct E as (r & Er & E).
    assert (Hbs : bs = Z.lor (Z.land n 127) 128 :: r) by congruence.
    rewrite Hbs. apply Hstep; [ exact Hbig | exact Er | ].
    apply IH; [ | exact Er ].
    rewrite Z.shiftr_div_pow2 by lia. change (2 ^ 7) with 128.
    split; [ apply Z.div_pos; lia | apply Z.div_lt; lia ].
  - unfold bytes_of_ints in E. cbn [forallb] in E.
    destruct (is_byte n); [ | discriminate E ].
    assert (Hbs : bs = [n]) by (cbn in E; congruence).
    rewrite Hbs. apply Hbase. lia.
Qed.

Lemma continued_byte (n : Z) : continued (Z.lor (Z.land n 127) 128).
Proof.
  pose proof (varint_byte_range n) as H. unfold is_byte in H.
  apply andb_prop in H. destruct H as [H1 H2].
  apply Z.leb_le in H1. apply Z.ltb_lt in H2.
  destruct (continuation_byte n) as [_ H128].
  unfold continued. split; [ | exact H2 ].
  destruct (Z.ltb_spec (Z.lor (Z.land n 127) 128) 128) as [Hlt | Hge];
    [ | exact Hge ].
  exfalso.
  assert (Hz : Z.land (Z.lor (Z.land n 127) 128) 128 = 0).
  { apply Z.bits_inj'. intros i Hi. rewrite Z.land_spec, Z.bits_0.
    change 128 with (2 ^ 7) at 2.
    destruct (Z.eq_dec i 7) as [-> | Hne].
    - rewrite Z.pow2_bits_true by lia. rewrite andb_true_r.
      destruct (Z.eq_dec (Z.lor (Z.land n 127) 128) 0) as [E0 | E0];
        [ rewrite E0; apply Z.bits_0 | ].
      apply Z.bits_above_log2; [ lia | ].
      apply Z.log2_lt_pow2; [ lia | ]. change (2 ^ 7) with 128. lia.
    - rewrite Z.pow2_bits_false by lia. apply andb_false_r. }
  rewrite H128 in Hz. discriminate Hz.
Qed.

(** X1.  [varint] raises ValueError on every negative integer and returns
    on every other one; what it returns is never empty, holds bytes only,
    and has the continuation bit set on every byte but the last. *)
Theorem varint_shape (n : Z) :
  (n < 0 -> varint n = Raise ValueError) /\
  (0 <= n ->
   exists bs, varint n = Ok bs /\ varint_shaped bs /\
              Forall (fun b => 0 <= b < 256) bs).
Proof.
  split; [ apply varint_negative | ].
  intros Hn. destruct (varint_total n Hn) as (b & bs & E).
  exists (b :: bs). split; [ exact E | ].
  revert E. generalize (b :: bs). clear b bs. intros bs E.
  apply (varint_induction
           (fun _ bs => varint_shaped bs /\ Forall (fun b => 0 <= b < 256) bs))
    with (n := n); [ | | exact Hn | exact E ].
  - intros m Hm. split.
    + exists [], m. repeat split; [ constructor | lia | lia ].
    + constructor; [ lia | constructor ].
  - intros m r Hm Er [(body & final & -> & Hbody & Hfinal) Hall].
    pose proof (continued_byte m) as Hc. split.
    + exists (Z.lor (Z.land m 127) 128 :: body), final.
      repeat split; try lia. constructor; assumption.
    + constructor; [ unfold continued in Hc; lia | exact Hall ].
Qed.

Lemma varint_shape_example :
  exists bs, varint 300 = Ok bs /\ varint_shaped bs /\
             Forall (fun b => 0 <= b < 256) bs.
Proof.
  apply (proj2 (varint_shape 300)). lia.
Defined.

Lemma varint_ok_nonneg (n : Z) (bs : bytestr) : varint n = Ok bs -> 0 <= n.
Proof.
  intros E. destruct (Z.ltb_spec n 0) as [Hneg | Hpos]; [ | exact Hpos ].
  rewrite varint_negative in E by exact Hneg. discriminate E.
Qed.

(** X2.  The encoding of n takes at most k + 1 bytes exactly when n is
    below 2^(7(k+1)): one byte below 128, and never more than ten bytes
    for a number below 2^64. *)
Theorem varint_length (n : Z) (bs : bytestr) :
  varint n = Ok bs ->
  (forall k : nat,
      (List.length bs <= S k)%nat <-> n < 2 ^ (7 * (Z.of_nat k + 1))) /\
  (n < 2 ^ 64 -> (List.length bs <= 10)%nat).
Proof.
  intros E.
  assert (H : forall k : nat,
             (List.length bs <= S k)%nat <-> n < 2 ^ (7 * (Z.of_nat k + 1))).
  { apply (varint_induction
             (fun n bs => forall k : nat,
                  (List.length bs <= S k)%nat
                  <-> n < 2 ^ (7 * (Z.of_nat k + 1))))
      with (n := n) (bs := bs);
      [ | | exact (varint_ok_nonneg n bs E) | exact E ].
    - intros m Hm k. cbn [List.length]. split; [ intros _ | lia ].
      assert (2 ^ 7 <= 2 ^ (7 * (Z.of_nat k + 1)))
        by (apply Z.pow_le_mono_r; lia).
      change (2 ^ 7) with 128 in *. lia.
    - intros m r Hm Er IH k. cbn [List.length].
      assert (Hq : Z.shiftr m 7 = m / 128)
        by (rewrite Z.shiftr_div_pow2 by lia; reflexivity).
      pose proof (Z_div_mod_eq_full m 128) as Hdm.
      pose proof (Z.mod_pos_bound m 128 ltac:(lia)) as Hmod.
      destruct k as [| k'].
      + change (2 ^ (7 * (Z.of_nat 0 + 1))) with 128.
        destruct r as [| c r'].
        * destruct (varint_total (Z.shiftr m 7)) as (b & bs' & Eb);
            [ rewrite Hq; apply Z.div_pos; lia | congruence ].
        * cbn [List.length]. lia.
      + specialize (IH k').
        replace (7 * (Z.of_nat (S k') + 1))
          with (7 + 7 * (Z.of_nat k' + 1)) by lia.
        rewrite Z.pow_add_r by lia. change (2 ^ 7) with 128.
        rewrite Hq in IH.
        split; intros Hlen.
        * assert (Hr : (List.length r <= S k')%nat) by lia.
          apply IH in Hr. lia.
        * assert (Hr : m / 128 < 2 ^ (7 * (Z.of_nat k' + 1))) by lia.
          apply IH in Hr. lia. }
  split; [ exact H | ].
  intros H64. apply (H 9%nat).
  assert (2 ^ 64 <= 2 ^ (7 * (Z.of_nat 9 + 1)))
    by (apply Z.pow_le_mono_r; lia).
  lia.
Qed.

Lemma varint_length_example :
  varint 16384 = Ok [128; 128; 1] /\
  ((3 <= 3)%nat <-> 16384 < 2 ^ (7 * (Z.of_nat 2 + 1))).
Proof.
  split; [ reflexivity | ].
  exact (proj1 (varint_length 16384 [128; 128; 1] eq_refl) 2%nat).
Defined.

Lemma final_byte (m : Z) :
  0 <= m < 128 -> Z.land m 127 = m /\ Z.land m 128 = 0.
Proof.
  intros Hm. split.
  - change 127 with (Z.ones 7). rewrite Z.land_ones by lia.
    apply Z.mod_small. change (2 ^ 7) with 128. lia.
  - apply Z.bits_inj'. intros i Hi. rewrite Z.land_spec, Z.bits_0.
    change 128 with (2 ^ 7).
    destruct (Z.eq_dec i 7) as [-> | Hne].
    + rewrite Z.pow2_bits_true by lia. rewrite andb_true_r.
      destruct (Z.eq_dec m 0) as [-> | Hm0]; [ apply Z.bits_0 | ].
      apply Z.bits_above_log2; [ lia | ].
      apply Z.log2_lt_pow2; [ lia | ]. change (2 ^ 7) with 128. lia.
    + rewrite Z.pow2_bits_false by lia. apply andb_false_r.
Qed.

(** The decoding loop stops at the end of an encoding, whatever follows. *)
Lemma varintdecode_loop_prefix (n : Z) (bs : bytestr) :
  varint n = Ok bs ->
  forall (rest : list Z) (shift res : Z),
    0 <= shift ->
    varintdecode_loop (map CharItem (bs ++ rest)) shift res
    = Ok (Z.lor res (Z.shiftl n shift)).
Proof.
  intros E.
  apply (varint_induction
           (fun n bs =>
              forall (rest : list Z) (shift res : Z),
                0 <= shift ->
                varintdecode_loop (map CharItem (bs ++ rest)) shift res
                = Ok (Z.lor res (Z.shiftl n shift))))
    with (n := n) (bs := bs);
    [ | | exact (varint_ok_nonneg n bs E) | exact E ].
  - intros m Hm rest shift res Hs.
    destruct (final_byte m Hm) as [H127 H128].
    cbn [app map varintdecode_loop ord bind]. rewrite H127, H128.
    reflexivity.
  - intros m r Hm Er IH rest shift res Hs.
    destruct (continuation_byte m) as [H127 H128].
    cbn [app map varintdecode_loop ord bind]. rewrite H127, H128.
    change (128 =? 0) with false. cbv iota.
    rewrite IH by lia. f_equal. rewrite <- Z.lor_assoc. f_equal.
    replace (shift + 7) with (7 + shift) by lia.
    rewrite <- Z.shiftl_shiftl by lia.
    rewrite <- Z.shiftl_lor. rewrite split_low_bits. reflexivity.
Qed.

(** X3.  Read as text, an encoding followed by anything at all decodes to
    the number encoded: [varintdecode] stops at the first character without
    the continuation bit and ignores the rest. *)
Theorem varintdecode_reads_one_varint (n : Z) (bs : bytestr) :
  varint n = Ok bs ->
  forall rest : text, varintdecode (PyStr (bs ++ rest)) = Ok n.
Proof.
  intros E rest. unfold varintdecode, items.
  rewrite (varintdecode_loop_prefix n bs E rest 0 0) by lia.
  rewrite Z.shiftl_0_r. reflexivity.
Qed.

Lemma varintdecode_reads_one_varint_example :
  varintdecode (PyStr ([172; 2] ++ [255; 7; 0])) = Ok 300.
Proof.
  exact (varintdecode_reads_one_varint 300 [172; 2] eq_refl [255; 7; 0]).
Defined.

Lemma same_length_app {A : Type} (a : list A) :
  forall b r1 r2,
    List.length a = List.length b -> a ++ r1 = b ++ r2 -> a = b /\ r1 = r2.
Proof.
  induction a as [| x a IH]; intros [| y b] r1 r2 Hl H;
    try discriminate Hl.
  - split; [ reflexivity | exact H ].
  - cbn [app] in H. injection H as -> H.
    cbn [List.length] in Hl.
    destruct (IH b r1 r2 ltac:(lia) H) as [-> ->]. split; reflexivity.
Qed.

Lemma varint_prefix_unique (n m : Z) (a b : bytestr) (r1 r2 : list Z) :
  varint n = Ok a -> varint m = Ok b ->
  a ++ r1 = b ++ r2 -> n = m /\ a = b /\ r1 = r2.
Proof.
  intros Ea Eb H.
  pose proof (varintdecode_loop_prefix n a Ea r1 0 0 ltac:(lia)) as Hn.
  pose proof (varintdecode_loop_prefix m b Eb r2 0 0 ltac:(lia)) as Hm.
  rewrite H, Hm in Hn. rewrite !Z.shiftl_0_r in Hn. cbn in Hn.
  assert (Hnm : n = m) by congruence.
  split; [ exact Hnm | ].
  assert (Hab : a = b) by congruence.
  split; [ exact Hab | ].
  rewrite Hab in H. apply app_inv_head in H. exact H.
Qed.

(** X4.  No encoding is the beginning of another: two encodings, each
    followed by whatever bytes, that give the same byte string are the
    encodings of the same number and are followed by the same bytes.  In
    particular [varint] is injective. *)
Theorem varint_prefix_free (n m : Z) (a b : bytestr) (r1 r2 : list Z) :
  varint n = Ok a -> varint m = Ok b ->
  a ++ r1 = b ++ r2 -> n = m /\ a = b /\ r1 = r2.
Proof. exact (varint_prefix_unique n m a b r1 r2). Qed.

Lemma varint_prefix_free_example :
  300 = 300 /\ [172; 2] = [172; 2] /\ [9; 9] = [9; 9].
Proof.
  exact (varint_prefix_free 300 300 [172; 2] [172; 2] [9; 9] [9; 9]
           eq_refl eq_refl eq_refl).
Defined.

(** X5.  [variable_buffer] never raises; its result is the varint of the
    length of the buffer followed by the buffer, the length can be read
    back from the front of it, and two framed buffers followed by anything
    that give the same bytes hold the same buffer: a stream of them splits
    in one way only. *)
Theorem variable_buffer_frames (s : bytestr) :
  exists l,
    varint (len s) = Ok l /\
    variable_buffer s = Ok (l ++ s) /\
    (forall rest, varintdecode (PyStr ((l ++ s) ++ rest)) = Ok (len s)) /\
    (forall s' l' r r',
        variable_buffer s' = Ok l' ->
        (l ++ s) ++ r = l' ++ r' -> s = s' /\ r = r').
Proof.
  destruct (varint_total (len s)) as (c & cs & El); [ unfold len; lia | ].
  exists (c :: cs). split; [ exact El | ].
  split; [ unfold variable_buffer; rewrite El; reflexivity | ].
  split.
  - intros rest. rewrite <- app_assoc.
    apply (varintdecode_reads_one_varint (len s) (c :: cs) El).
  - intros s' l' r r' Es' H.
    unfold variable_buffer in Es'.
    apply bind_ok in Es'. destruct Es' as (p & Ep & Es').
    assert (Hl' : l' = p ++ s') by congruence.
    rewrite Hl' in H. rewrite <- !app_assoc in H.
    destruct (varint_prefix_unique (len s) (len s') (c :: cs) p
                (s ++ r) (s' ++ r') El Ep H) as (Hlen & _ & Hrest).
    apply same_length_app; [ | exact Hrest ].
    unfold len in Hlen. lia.
Qed.

Lemma variable_buffer_frames_example :
  exists l,
    variable_buffer [7; 8] = Ok (l ++ [7; 8]) /\
    varintdecode (PyStr ((l ++ [7; 8]) ++ [1])) = Ok 2.
Proof.
  destruct (variable_buffer_frames [7; 8]) as (l & _ & Hb & Hd & _).
  exists l. split; [ exact Hb | exact (Hd [1]) ].
Defined.

(** ** The operation registry *)

Lemma lookup_In {V : Type} (k : string) (v : V) (d : list (string * V)) :
  lookup k d = Some v -> In (k, v) d.
Proof.
  induction d as [| [k' v'] r IH]; cbn [lookup]; [ discriminate | ].
  destruct (String.eqb_spec k k') as [-> | Hne].
  - intros H. injection H as ->. left. reflexivity.
  - intros H. right. apply IH. exact H.
Qed.

(** Every entry of the registry is found again from its tag, and every tag
    is between 0 and 43. *)
Lemma operations_entries :
  forallb (fun e : string * Z =>
             let (key, id) := e in
             (0 <=? id) && (id <=? 43) &&
             match find_operation id operations with
             | Some key' => String.eqb key' key
             | None => false
             end) operations = true.
Proof. vm_compute. reflexivity. Qed.

Lemma operations_entry (name : string) (id : Z) :
  lookup name operations = Some id ->
  0 <= id <= 43 /\ find_operation id operations = Some name.
Proof.
  intros H. apply lookup_In in H.
  pose proof operations_entries as Hall.
  rewrite forallb_forall in Hall. specialize (Hall (name, id) H).
  cbn beta iota in Hall.
  apply andb_prop in Hall. destruct Hall as [Hr Hf].
  apply andb_prop in Hr. destruct Hr as [H0 H43].
  apply Z.leb_le in H0. apply Z.leb_le in H43.
  split; [ lia | ].
  destruct (find_operation id operations) as [key' |]; [ | discriminate Hf ].
  apply String.eqb_eq in Hf. rewrite Hf. reflexivity.
Qed.

(** Each tag from 0 to 43 is the tag of the operation it is found under. *)
Lemma operations_tags :
  forallb (fun i : nat =>
             match find_operation (Z.of_nat i) operations with
             | Some key =>
                 match lookup key operations with
                 | Some id => id =? Z.of_nat i
                 | None => false
                 end
             | None => false
             end) (seq 0 44) = true.
Proof. vm_compute. reflexivity. Qed.

Lemma find_operation_In (i : Z) (table : list (string * Z)) (key : string) :
  find_operation i table = Some key -> In (key, i) table.
Proof.
  induction table as [| [k id] r IH]; cbn [find_operation];
    [ discriminate | ].
  destruct (Z.eqb_spec id i) as [-> | Hne].
  - intros H. injection H as ->. left. reflexivity.
  - intros H. right. apply IH. exact H.
Qed.

(** X6.  [getOperationNameForId] inverts the registry: the tag of a
    registered operation gives its name back, every tag from 0 to 43 gives
    the name of the operation registered under it, and any other integer
    gives the text "Unknown Operation ID" followed by the integer. *)
Theorem getOperationNameForId_inverts_registry :
  (forall name id,
      lookup name operations = Some id ->
      getOperationNameForId id = lit name) /\
  (forall i,
      0 <= i <= 43 ->
      exists name, lookup name operations = Some i /\
                   getOperationNameForId i = lit name) /\
  (forall i,
      i < 0 \/ 43 < i ->
      getOperationNameForId i = lit "Unknown Operation ID " ++ fmt_d i).
Proof.
  split; [ | split ].
  - intros name id H. unfold getOperationNameForId.
    destruct (operations_entry name id H) as [_ ->]. reflexivity.
  - intros i Hi. unfold getOperationNameForId.
    pose proof operations_tags as Hall. rewrite forallb_forall in Hall.
    specialize (Hall (Z.to_nat i)).
    rewrite Z2Nat.id in Hall by lia.
    assert (Hin : In (Z.to_nat i) (seq 0 44)) by (apply in_seq; lia).
    specialize (Hall Hin).
    destruct (find_operation i operations) as [key |];
      [ | discriminate Hall ].
    destruct (lookup key operations) as [id |] eqn:El;
      [ | discriminate Hall ].
    apply Z.eqb_eq in Hall. subst id. exists key. split; reflexivity || exact El.
  - intros i Hi. unfold getOperationNameForId.
    destruct (find_operation i operations) as [key |] eqn:Ef;
      [ | reflexivity ].
    exfalso. apply find_operation_In in Ef.
    pose proof operations_entries as Hall.
    rewrite forallb_forall in Hall. specialize (Hall (key, i) Ef).
    cbn beta iota in Hall.
    apply andb_prop in Hall. destruct Hall as [Hr _].
    apply andb_prop in Hr. destruct Hr as [H0 H43].
    apply Z.leb_le in H0. apply Z.leb_le in H43. lia.
Qed.

Lemma getOperationNameForId_example :
  getOperationNameForId 38 = lit "override_transfer" /\
  getOperationNameForId 44 = lit "Unknown Operation ID 44".
Proof.
  destruct getOperationNameForId_inverts_registry as (Hname & _ & Hunknown).
  split.
  - apply Hname. reflexivity.
  - rewrite (Hunknown 44) by lia. reflexivity.
Defined.




(** ** Fixed-width integers *)

Lemma le_bytes_bytes (w : nat) :
  forall n, Forall (fun b => 0 <= b < 256) (le_bytes w n).
Proof.
  induction w as [| k IH]; intros n; cbn [le_bytes]; constructor.
  - apply Z.mod_pos_bound. lia.
  - apply IH.
Qed.

Lemma struct_pack_range (f : fmt) (d : Z) :
  f <> fmt_q ->
  let w := match f with
           | fmt_B => 1%nat | fmt_H => 2%nat | fmt_I => 4%nat | _ => 8%nat
           end in
  (0 <= d < 256 ^ Z.of_nat w ->
   exists b, struct_pack f d = Ok b /\ List.length b = w /\
             le_value b = d /\ Forall (fun x => 0 <= x < 256) b) /\
  (~ 0 <= d < 256 ^ Z.of_nat w -> struct_pack f d = Raise StructError).
Proof.
  intros Hf w. split.
  - intros Hd.
    assert (E : struct_pack f d = Ok (le_bytes w d)).
    { unfold struct_pack. subst w.
      destruct f; try contradiction;
        match goal with
        | |- (if ?c then _ else _) = _ => destruct c eqn:Ec
        end; try reflexivity;
        exfalso; apply andb_false_iff in Ec;
        destruct Ec as [Ec | Ec];
        [ apply Z.leb_gt in Ec | apply Z.ltb_ge in Ec
        | apply Z.leb_gt in Ec | apply Z.ltb_ge in Ec
        | apply Z.leb_gt in Ec | apply Z.ltb_ge in Ec
        | apply Z.leb_gt in Ec | apply Z.ltb_ge in Ec ];
        cbn in Hd, Ec; lia. }
    exists (le_bytes w d). split; [ exact E | ].
    destruct (struct_pack_unsigned f d (le_bytes w d) Hf E) as [Hv Hl].
    split; [ apply le_bytes_length | ].
    split; [ exact Hv | apply le_bytes_bytes ].
  - intros Hd. unfold struct_pack. subst w.
    destruct f; try contradiction;
      match goal with
      | |- (if ?c then _ else _) = _ => destruct c eqn:Ec
      end; try reflexivity;
      exfalso; apply Hd; apply andb_prop in Ec; destruct Ec as [E1 E2];
      apply Z.leb_le in E1; apply Z.ltb_lt in E2; cbn in E2 |- *; lia.
Qed.

(** X8.  An unsigned integer codec of w bytes (Uint8, Uint16, Uint32,
    Uint64, and Bool, which is a Uint8 and takes any byte, not 0 and 1
    only) encodes exactly the integers from 0 to 256^w - 1, to w bytes
    whose value read least significant byte first is the integer; any
    other integer raises struct.error. *)
Theorem Uint_bytes (timegm_strptime : text -> option Z) (d : Z) :
  let codec (w : nat) (v : value) :=
    (0 <= d < 256 ^ Z.of_nat w ->
     exists b, bytes timegm_strptime v = Ok b /\ List.length b = w /\
               le_value b = d /\ Forall (fun x => 0 <= x < 256) b) /\
    (~ 0 <= d < 256 ^ Z.of_nat w ->
     bytes timegm_strptime v = Raise StructError) in
  codec 1%nat (Uint8 d) /\ codec 2%nat (Uint16 d) /\
  codec 4%nat (Uint32 d) /\ codec 8%nat (Uint64 d) /\ codec 1%nat (Bool d).
Proof.
  intros codec. subst codec. cbv beta.
  pose proof (struct_pack_range fmt_B d ltac:(discriminate)) as HB.
  pose proof (struct_pack_range fmt_H d ltac:(discriminate)) as HH.
  pose proof (struct_pack_range fmt_I d ltac:(discriminate)) as HI.
  pose proof (struct_pack_range fmt_Q d ltac:(discriminate)) as HQ.
  cbv zeta in HB, HH, HI, HQ.
  repeat split; first [ apply HB | apply HH | apply HI | apply HQ ].
Qed.

Lemma Uint_bytes_example :
  (exists b, bytes (fun _ => None) (Uint16 513) = Ok b /\
             List.length b = 2%nat /\ le_value b = 513 /\
             Forall (fun x => 0 <= x < 256) b) /\
  bytes (fun _ => None) (Uint8 256) = Raise StructError.
Proof.
  destruct (Uint_bytes (fun _ => None) 513) as (_ & [H16 _] & _).
  destruct (Uint_bytes (fun _ => None) 256) as ([_ H8] & _).
  split; [ apply H16; cbn; lia | apply H8; cbn; lia ].
Defined.

(** X9.  Int64 encodes exactly the integers from -2^63 to 2^63 - 1, to
    eight bytes in two's complement, least significant byte first: their
    value is the integer modulo 2^64, and the integer is that value, less
    2^64 when the value reaches 2^63.  Any other integer raises
    struct.error. *)
Theorem Int64_bytes (timegm_strptime : text -> option Z) (d : Z) :
  (- 2 ^ 63 <= d < 2 ^ 63 ->
   exists b,
     bytes timegm_strptime (Int64 d) = Ok b /\
     List.length b = 8%nat /\
     Forall (fun x => 0 <= x < 256) b /\
     le_value b = d mod 2 ^ 64 /\
     d = if le_value b <? 2 ^ 63 then le_value b else le_value b - 2 ^ 64) /\
  (~ - 2 ^ 63 <= d < 2 ^ 63 ->
   bytes timegm_strptime (Int64 d) = Raise StructError).
Proof.
  change (bytes timegm_strptime (Int64 d)) with (struct_pack fmt_q d).
  unfold struct_pack. split.
  - intros Hd.
    destruct (Z.leb_spec (- 2 ^ 63) d); [ | lia ].
    destruct (Z.ltb_spec d (2 ^ 63)); [ | lia ].
    cbn [andb]. exists (le_bytes 8 (d mod 2 ^ 64)).
    assert (Hv : le_value (le_bytes 8 (d mod 2 ^ 64)) = d mod 2 ^ 64).
    { unfold le_value. rewrite le_bytes_value.
      change (256 ^ Z.of_nat 8) with (2 ^ 64).
      apply Z.mod_small. apply Z.mod_pos_bound. lia. }
    split; [ reflexivity | ].
    split; [ apply le_bytes_length | ].
    split; [ apply le_bytes_bytes | ].
    split; [ exact Hv | ].
    rewrite Hv.
    destruct (Z.ltb_spec d 0) as [Hneg | Hpos].
    + assert (Hm : d mod 2 ^ 64 = d + 2 ^ 64).
      { rewrite <- (Z_mod_plus_full d 1 (2 ^ 64)).
        apply Z.mod_small. lia. }
      rewrite Hm. destruct (Z.ltb_spec (d + 2 ^ 64) (2 ^ 63)); lia.
    + rewrite Z.mod_small by lia.
      destruct (Z.ltb_spec d (2 ^ 63)); lia.
  - intros Hd.
    destruct (Z.leb_spec (- 2 ^ 63) d); [ | reflexivity ].
    destruct (Z.ltb_spec d (2 ^ 63)); [ lia | reflexivity ].
Qed.

Lemma Int64_bytes_example :
  exists b,
    bytes (fun _ => None) (Int64 (-2)) = Ok b /\
    List.length b = 8%nat /\
    Forall (fun x => 0 <= x < 256) b /\
    le_value b = (-2) mod 2 ^ 64 /\
    -2 = if le_value b <? 2 ^ 63 then le_value b else le_value b - 2 ^ 64.
Proof.
  apply (proj1 (Int64_bytes (fun _ => None) (-2))). lia.
Defined.

(** ** Text *)

Lemma utf8_char_length (c : Z) (b : bytestr) :
  utf8_char c = Ok b ->
  (c < 128 -> b = [c]) /\ (128 <= c -> (2 <= List.length b)%nat).
Proof.
  unfold utf8_char. intros H.
  destruct (Z.ltb_spec c 0); [ discriminate H | ].
  destruct (Z.ltb_spec c 128).
  { split; [ intros _; congruence | lia ]. }
  destruct (Z.ltb_spec c 2048).
  { assert (E : b = [Z.lor 192 (Z.shiftr c 6); Z.lor 128 (Z.land c 63)])
      by congruence.
    rewrite E. split; [ lia | intros _; cbn; lia ]. }
  destruct (Z.ltb_spec c 65536).
  { destruct ((55296 <=? c) && (c <=? 57343)); [ discriminate H | ].
    assert (E : b = [Z.lor 224 (Z.shiftr c 12);
                     Z.lor 128 (Z.land (Z.shiftr c 6) 63);
                     Z.lor 128 (Z.land c 63)]) by congruence.
    rewrite E. split; [ lia | intros _; cbn; lia ]. }
  destruct (Z.ltb_spec c 1114112); [ | discriminate H ].
  assert (E : b = [Z.lor 240 (Z.shiftr c 18);
                   Z.lor 128 (Z.land (Z.shiftr c 12) 63);
                   Z.lor 128 (Z.land (Z.shiftr c 6) 63);
                   Z.lor 128 (Z.land c 63)]) by congruence.
  rewrite E. split; [ lia | intros _; cbn; lia ].
Qed.

Lemma utf8_length (s : text) :
  forall b,
    utf8 s = Ok b ->
    (List.length s <= List.length b)%nat /\
    (forallb (fun c => c <? 128) s = true -> b = s) /\
    (existsb (fun c => 128 <=? c) s = true ->
     (List.length s < List.length b)%nat).
Proof.
  induction s as [| c r IH]; intros b H.
  - cbn in H. assert (E : b = []) by congruence. rewrite E.
    repeat split; [ lia | discriminate ].
  - cbn [utf8] in H. apply bind_ok in H. destruct H as (x & Hx & H).
    apply bind_ok in H. destruct H as (t & Ht & H).
    assert (E : b = x ++ t) by congruence. rewrite E.
    destruct (IH t Ht) as (Hlen & Hascii & Hwide).
    destruct (utf8_char_length c x Hx) as [Hlow Hhigh].
    rewrite length_app. cbn [List.length forallb existsb].
    destruct (Z.ltb_spec c 128) as [Hc | Hc].
    + rewrite (Hlow Hc). cbn [List.length app andb].
      destruct (Z.leb_spec 128 c); [ lia | ]. cbn [orb].
      split; [ lia | split ].
      * intros Ha. rewrite (Hascii Ha). reflexivity.
      * intros Hw. specialize (Hwide Hw). lia.
    + specialize (Hhigh Hc).
      split; [ lia | split; [ discriminate | intros _; lia ] ].
Qed.

(** X10.  The length in front of an encoded String counts the characters
    of the text, not the bytes that follow: the two agree when the text is
    ASCII, in which case the bytes are the characters themselves, and the
    length falls short of the byte count as soon as a character is not
    ASCII. *)
Theorem String_length_prefix (timegm_strptime : text -> option Z)
        (s : text) (w : bytestr) :
  bytes timegm_strptime (String s) = Ok w ->
  exists l b,
    varint (len s) = Ok l /\ utf8 s = Ok b /\ w = l ++ b /\
    len s <= len b /\
    (forallb (fun c => c <? 128) s = true -> b = s) /\
    (existsb (fun c => 128 <=? c) s = true -> len s < len b).
Proof.
  rewrite bytes_String. intros H.
  apply bind_ok in H. destruct H as (l & Hl & H).
  apply bind_ok in H. destruct H as (b & Hb & H).
  exists l, b. destruct (utf8_length s b Hb) as (Hlen & Hascii & Hwide).
  split; [ exact Hl | ]. split; [ exact Hb | ].
  split; [ congruence | ]. unfold len.
  split; [ lia | ]. split; [ exact Hascii | ].
  intros Hw. specialize (Hwide Hw). lia.
Qed.

Lemma String_length_prefix_example :
  exists l b,
    varint (len [233]) = Ok l /\ utf8 [233] = Ok b /\
    [1; 195; 169] = l ++ b /\
    len [233] <= len b /\
    (forallb (fun c => c <? 128) [233] = true -> b = [233]) /\
    (existsb (fun c => 128 <=? c) [233] = true -> len [233] < len b).
Proof.
  apply (String_length_prefix (fun _ => None) [233] [1; 195; 169]).
  reflexivity.
Defined.

(** ** Composites and arrays on the wire *)

Section CompositeWire.

Variable timegm_strptime : text -> option Z.

Local Abbreviation bytes := (bytes timegm_strptime).
Local Abbreviation join := (join timegm_strptime).
Local Abbreviation field_bytes := (field_bytes timegm_strptime).
Local Abbreviation fields_bytes := (fields_bytes timegm_strptime).

Lemma fields_bytes_parts (fs : list (string * value)) :
  forall b,
    fields_bytes fs [] = Ok b <->
    exists parts,
      Forall2 (fun f p => field_bytes (snd f) = Ok p) fs parts /\
      b = List.concat parts.
Proof.
  induction fs as [| [n v] r IH]; intros b.
  - cbn [fields_bytes]. split.
    + intros H. exists []. split; [ constructor | cbn; congruence ].
    + intros (parts & Hp & ->). inversion Hp. reflexivity.
  - rewrite fields_bytes_cons. split.
    + intros H. apply bind_ok in H. destruct H as (x & Hx & H).
      apply bind_ok in H. destruct H as (y & Hy & H).
      apply IH in Hy. destruct Hy as (parts & Hp & ->).
      exists (x :: parts). split; [ constructor; assumption | ].
      cbn [List.concat]. congruence.
    + intros (parts & Hp & ->).
      inversion Hp as [| f p fs' ps Hf Hrest]; subst.
      cbn [snd] in Hf. rewrite Hf. cbn [bind].
      assert (Hr : fields_bytes r [] = Ok (List.concat ps))
        by (apply IH; exists ps; split; [ exact Hrest | reflexivity ]).
      rewrite Hr. reflexivity.
Qed.

Lemma fields_bytes_step (n : string) (v : value)
      (r : list (string * value)) (b : bytestr) :
  fields_bytes ((n, v) :: r) b =
  (x <- field_bytes v ;; fields_bytes r (b ++ x)).
Proof. reflexivity. Qed.

Lemma fields_bytes_first_error (pre : list (string * value)) :
  forall (n : string) (v : value) (post : list (string * value))
         (b : bytestr) (e : exn),
    Forall (fun f => is_ok (field_bytes (snd f)) = true) pre ->
    field_bytes v = Raise e ->
    fields_bytes (pre ++ (n, v) :: post) b = Raise e.
Proof.
  induction pre as [| [n' v'] r IH]; intros n v post b e Hpre Hv;
    cbn [app]; rewrite fields_bytes_step.
  - rewrite Hv. reflexivity.
  - inversion Hpre as [| f fs Hf Hrest]; subst. cbn [snd] in Hf.
    destruct (field_bytes v') as [x | e']; [ | discriminate Hf ].
    cbn [bind]. apply IH; assumption.
Qed.

(** X11.  Any composite on the wire is the concatenation of the encodings
    of its fields, first field first, with nothing in between: it encodes
    exactly when every field does, and when a field does not, the error of
    the first such field is the error of the composite. *)
Theorem composite_wire_is_concatenation (cls : string)
        (fs : list (string * value)) :
  (forall b,
      bytes (GrapheneObject cls (Some fs)) = Ok b <->
      exists parts,
        Forall2 (fun f p => field_bytes (snd f) = Ok p) fs parts /\
        b = List.concat parts) /\
  (forall pre n v post e,
      fs = pre ++ (n, v) :: post ->
      Forall (fun f => is_ok (field_bytes (snd f)) = true) pre ->
      field_bytes v = Raise e ->
      bytes (GrapheneObject cls (Some fs)) = Raise e).
Proof.
  rewrite bytes_GrapheneObject. split.
  - apply fields_bytes_parts.
  - intros pre n v post e -> Hpre Hv.
    apply fields_bytes_first_error; assumption.
Qed.

Lemma fields_bytes_values (fs1 : list (string * value)) :
  forall fs2 b,
    map snd fs1 = map snd fs2 -> fields_bytes fs1 b = fields_bytes fs2 b.
Proof.
  induction fs1 as [| [n1 v1] r1 IH]; intros [| [n2 v2] r2] b H;
    try discriminate H; [ reflexivity | ].
  cbn [map snd] in H. injection H as -> H.
  rewrite !fields_bytes_step.
  destruct (field_bytes v2) as [x | e]; cbn [bind]; [ | reflexivity ].
  apply IH. exact H.
Qed.

(** X12.  Neither the class of a composite nor the names of its fields
    reach the wire: two composites holding the same values in the same
    order encode alike.  Nesting does not either: a composite held in a
    field encodes as if its fields stood in its place. *)
Theorem wire_carries_values_only (cls cls' : string)
        (fs fs' : list (string * value)) :
  (map snd fs = map snd fs' ->
   bytes (GrapheneObject cls (Some fs))
   = bytes (GrapheneObject cls' (Some fs'))) /\
  (forall pre n inner post,
      fs = pre ++ (n, GrapheneObject cls' (Some inner)) :: post ->
      bytes (GrapheneObject cls (Some fs))
      = bytes (GrapheneObject cls (Some (pre ++ inner ++ post)))).
Proof.
  split.
  - intros H. rewrite !bytes_GrapheneObject.
    apply fields_bytes_values. exact H.
  - intros pre n inner post ->. rewrite !bytes_GrapheneObject.
    rewrite !fields_bytes_app.
    destruct (fields_bytes pre []) as [b |]; cbn [bind]; [ | reflexivity ].
    rewrite fields_bytes_step, fields_bytes_app.
    change (field_bytes (GrapheneObject cls' (Some inner)))
      with (bytes (GrapheneObject cls' (Some inner))).
    rewrite bytes_GrapheneObject.
    rewrite (fields_bytes_acc timegm_strptime inner b).
    destruct (fields_bytes inner []) as [x |]; reflexivity.
Qed.

Lemma join_parts (d : list value) :
  forall b,
    join d = Ok b <->
    exists parts,
      Forall2 (fun a p => bytes a = Ok p) d parts /\ b = List.concat parts.
Proof.
  induction d as [| a r IH]; intros b.
  - split.
    + intros H. exists []. split; [ constructor | cbn in H |- *; congruence ].
    + intros (parts & Hp & ->). inversion Hp. reflexivity.
  - change (join (a :: r))
      with (x <- bytes a ;; y <- join r ;; Ok (x ++ y)).
    split.
    + intros H. apply bind_ok in H. destruct H as (x & Hx & H).
      apply bind_ok in H. destruct H as (y & Hy & H).
      apply IH in Hy. destruct Hy as (parts & Hp & ->).
      exists (x :: parts). split; [ constructor; assumption | ].
      cbn [List.concat]. congruence.
    + intros (parts & Hp & ->).
      inversion Hp as [| f p fs' ps Hf Hrest]; subst.
      rewrite Hf. cbn [bind].
      assert (Hr : join r = Ok (List.concat ps))
        by (apply IH; exists ps; split; [ exact Hrest | reflexivity ]).
      rewrite Hr. reflexivity.
Qed.

Lemma join_raw_str (d : list value) (s : text) :
  In (PyText s) d -> is_ok (join d) = false.
Proof.
  induction d as [| a r IH]; intros H; [ contradiction | ].
  change (join (a :: r))
    with (x <- bytes a ;; y <- join r ;; Ok (x ++ y)).
  destruct H as [-> | H].
  - reflexivity.
  - destruct (bytes a); cbn [bind]; [ | reflexivity ].
    specialize (IH H). destruct (join r); [ discriminate IH | reflexivity ].
Qed.

(** X13.  An Array (and a Set, which encodes the same way) is the varint of
    its element count followed by the encodings of its elements in order;
    the count can be read back from the front of it.  Unlike a field of a
    composite, an element that is a raw string is not encoded: an array
    holding one has no wire form. *)
Theorem Array_wire (d : list value) :
  bytes (Set_ d) = bytes (Array d) /\
  (forall b,
      bytes (Array d) = Ok b <->
      exists count parts,
        varint (len d) = Ok count /\
        Forall2 (fun a p => bytes a = Ok p) d parts /\
        b = count ++ List.concat parts) /\
  (forall b, bytes (Array d) = Ok b -> varintdecode (PyStr b) = Ok (len d)) /\
  (forall s, In (PyText s) d -> is_ok (bytes (Array d)) = false).
Proof.
  unfold Array, Set_. rewrite bytes_Array_obj, bytes_Set_obj.
  change (bytes (Varint32 (len d))) with (varint (len d)).
  split; [ reflexivity | ].
  assert (Hparts : forall b,
             (l <- varint (len d) ;; x <- join d ;; Ok (l ++ x)) = Ok b <->
             exists count parts,
               varint (len d) = Ok count /\
               Forall2 (fun a p => bytes a = Ok p) d parts /\
               b = count ++ List.concat parts).
  { intros b. split.
    - intros H. apply bind_ok in H. destruct H as (l & Hl & H).
      apply bind_ok in H. destruct H as (x & Hx & H).
      apply join_parts in Hx. destruct Hx as (parts & Hp & ->).
      exists l, parts. repeat split; [ exact Hl | exact Hp | congruence ].
    - intros (count & parts & Hc & Hp & ->). rewrite Hc. cbn [bind].
      assert (Hj : join d = Ok (List.concat parts))
        by (apply join_parts; exists parts; split; [ exact Hp | reflexivity ]).
      rewrite Hj. reflexivity. }
  split; [ exact Hparts | split ].
  - intros b H. apply Hparts in H.
    destruct H as (count & parts & Hc & _ & ->).
    unfold varintdecode, items.
    rewrite (varintdecode_loop_prefix (len d) count Hc) by lia.
    rewrite Z.shiftl_0_r. reflexivity.
  - intros s H. destruct (varint (len d)); cbn [bind]; [ | reflexivity ].
    pose proof (join_raw_str d s H) as Hj.
    destruct (join d); [ discriminate Hj | reflexivity ].
Qed.

End CompositeWire.

Lemma composite_wire_example :
  bytes (fun _ => None)
        (GrapheneObject "Asset"
           (Some [("amount", Int64 10); ("asset_id", Uint8 0)]))
  = Ok [10; 0; 0; 0; 0; 0; 0; 0; 0] /\
  bytes (fun _ => None)
        (GrapheneObject "Pair" (Some [("a", Uint8 1); ("b", PyNone)]))
  = Raise TypeError.
Proof.
  destruct (composite_wire_is_concatenation (fun _ => None) "Asset"
              [("amount", Int64 10); ("asset_id", Uint8 0)]) as [Hparts _].
  destruct (composite_wire_is_concatenation (fun _ => None) "Pair"
              [("a", Uint8 1); ("b", PyNone)]) as [_ Herr].
  split.
  - apply Hparts. exists [[10; 0; 0; 0; 0; 0; 0; 0]; [0]].
    split; [ repeat constructor | reflexivity ].
  - apply (Herr [("a", Uint8 1)] "b" PyNone [] TypeError);
      [ reflexivity | repeat constructor | reflexivity ].
Defined.

Lemma wire_carries_values_only_example :
  bytes (fun _ => None)
        (GrapheneObject "A" (Some [("x", Uint8 1); ("y", Uint16 2)]))
  = bytes (fun _ => None)
          (GrapheneObject "B" (Some [("p", Uint8 1); ("q", Uint16 2)])) /\
  bytes (fun _ => None)
        (GrapheneObject "A"
           (Some [("x", Uint8 1);
                  ("in", GrapheneObject "B" (Some [("p", Uint8 7)]))]))
  = bytes (fun _ => None)
          (GrapheneObject "A" (Some ([("x", Uint8 1)] ++ [("p", Uint8 7)] ++ []))).
Proof.
  split.
  - apply (proj1 (wire_carries_values_only (fun _ => None) "A" "B"
                    [("x", Uint8 1); ("y", Uint16 2)]
                    [("p", Uint8 1); ("q", Uint16 2)])).
    reflexivity.
  - apply (proj2 (wire_carries_values_only (fun _ => None) "A" "B"
                    [("x", Uint8 1);
                     ("in", GrapheneObject "B" (Some [("p", Uint8 7)]))]
                    [])
                 [("x", Uint8 1)] "in" [("p", Uint8 7)] []).
    reflexivity.
Defined.

Lemma Array_wire_example :
  varintdecode (PyStr [2; 5; 6]) = Ok (len [Uint8 5; Uint8 6]) /\
  is_ok (bytes (fun _ => None) (Array [Uint8 5; PyText [97]])) = false.
Proof.
  destruct (Array_wire (fun _ => None) [Uint8 5; Uint8 6]) as (_ & _ & Hd & _).
  destruct (Array_wire (fun _ => None) [Uint8 5; PyText [97]])
    as (_ & _ & _ & Hs).
  split.
  - apply Hd. reflexivity.
  - apply (Hs [97]). right. left. reflexivity.
Defined.

(** ** Optionals, object ids and the objects built on them *)

Section ObjectsWire.

Variable timegm_strptime : text -> option Z.

Local Abbreviation bytes := (bytes timegm_strptime).
Local Abbreviation field_bytes := (field_bytes timegm_strptime).
Local Abbreviation fields_bytes := (fields_bytes timegm_strptime).

Lemma Optional_bytes_cases (d : value) (b : bytestr) :
  bytes (Optional d) = Ok b <->
  (bytes d = Ok [] /\ b = [0]) \/
  (exists c cs, bytes d = Ok (c :: cs) /\ b = 1 :: c :: cs).
Proof.
  rewrite bytes_Optional. split.
  - destruct (bytes d) as [[| c cs] | e] eqn:E; cbn; intros H.
    + left. split; [ reflexivity | congruence ].
    + right. exists c, cs. split; [ reflexivity | congruence ].
    + discriminate H.
  - intros [[-> ->] | (c & cs & -> & ->)]; reflexivity.
Qed.

(** X14.  The first byte of an encoded Optional tells whether the inner
    value had any bytes: the encoding is [00] alone when the inner value
    encodes to nothing, and [01] followed by the inner bytes otherwise; an
    error of the inner value is the error of the optional.  An optional is
    therefore never empty on the wire, and an optional of an optional is
    always present. *)
Theorem Optional_wire (d : value) :
  (forall b,
      bytes (Optional d) = Ok b <->
      (bytes d = Ok [] /\ b = [0]) \/
      (exists c cs, bytes d = Ok (c :: cs) /\ b = 1 :: c :: cs)) /\
  (forall e, bytes d = Raise e -> bytes (Optional d) = Raise e) /\
  (forall b, bytes (Optional (Optional d)) = Ok b -> exists t, b = 1 :: t).
Proof.
  split; [ intros b; apply Optional_bytes_cases | split ].
  - intros e H. rewrite bytes_Optional, H. reflexivity.
  - intros b H. apply Optional_bytes_cases in H.
    destruct H as [[H _] | (c & cs & _ & ->)]; [ | eauto ].
    apply Optional_bytes_cases in H.
    destruct H as [[_ H] | (c & cs & _ & H)]; discriminate H.
Qed.

Lemma varint_domain (i : Z) : is_ok (varint i) = true <-> 0 <= i.
Proof.
  split.
  - intros H. destruct (varint i) as [bs |] eqn:E; [ | discriminate H ].
    apply (varint_ok_nonneg i bs E).
  - intros H. destruct (varint_total i H) as (b & bs & ->). reflexivity.
Qed.

Lemma varint_injective (i j : Z) :
  0 <= i -> 0 <= j -> varint i = varint j -> i = j.
Proof.
  intros Hi Hj H.
  destruct (varint_total i Hi) as (b & bs & Ei).
  assert (Ej : varint j = Ok (b :: bs)) by congruence.
  destruct (varint_prefix_unique i j (b :: bs) (b :: bs) [] [] Ei Ej
              eq_refl) as [Hij _].
  exact Hij.
Qed.

(** X15.  On the wire an ObjectId is its instance and nothing else: two
    ids with non-negative instances encode alike exactly when the
    instances are equal, whatever their space and type.  An id with a
    negative instance is constructed without complaint, but encoding it
    raises ValueError. *)
Theorem ObjectId_wire_is_instance (t1 t2 : text) (v1 v2 : option string)
        (o1 o2 : value) :
  ObjectId t1 v1 = Ok o1 -> ObjectId t2 v2 = Ok o2 ->
  exists s1 ty1 i1 s2 ty2 i2,
    o1 = ObjectId_obj s1 ty1 (Id i1) t1 /\
    o2 = ObjectId_obj s2 ty2 (Id i2) t2 /\
    (is_ok (bytes o1) = true <-> 0 <= i1) /\
    (i1 < 0 -> bytes o1 = Raise ValueError) /\
    (0 <= i1 -> 0 <= i2 -> (bytes o1 = bytes o2 <-> i1 = i2)).
Proof.
  intros H1 H2. apply ObjectId_ok_iff in H1. apply ObjectId_ok_iff in H2.
  destruct H1 as (sp1 & tp1 & id1 & s1 & ty1 & i1 & _ & _ & _ & _ & _ & ->).
  destruct H2 as (sp2 & tp2 & id2 & s2 & ty2 & i2 & _ & _ & _ & _ & _ & ->).
  exists s1, ty1, i1, s2, ty2, i2.
  change (bytes (ObjectId_obj s1 ty1 (Id i1) t1)) with (varint i1).
  change (bytes (ObjectId_obj s2 ty2 (Id i2) t2)) with (varint i2).
  split; [ reflexivity | split; [ reflexivity | ] ].
  split; [ apply varint_domain | ].
  split; [ apply varint_negative | ].
  intros Hi Hj. split; [ apply varint_injective; assumption | ].
  intros ->. reflexivity.
Qed.

Lemma hint_names_type (name : string) (code t : Z) :
  lookup name object_type = Some code ->
  name <> EmptyString ->
  hint_matches (Some name) t = true -> t = code.
Proof.
  intros Hl Hn H. unfold hint_matches in H.
  destruct name as [| c r]; [ contradiction | ].
  rewrite Hl in H. apply Z.eqb_eq in H. symmetry. exact H.
Qed.

(** X16.  An Asset is built exactly from an id that [ObjectId] accepts
    under the hint "asset", that is an id whose type index is 3: such an id
    always gives an Asset, holding the amount and the id, and any other id
    fails with the error of [ObjectId] (an AssertionError for an id of
    another type).  On the wire an Asset is the amount as an Int64 followed
    by the varint of the instance. *)
Theorem Asset_wire (amount : Z) (asset_id : text) :
  (forall e,
      ObjectId asset_id (Some "asset") = Raise e ->
      Asset amount asset_id = Raise e) /\
  (forall oid,
      ObjectId asset_id (Some "asset") = Ok oid ->
      exists s i,
        oid = ObjectId_obj s 3 (Id i) asset_id /\
        Asset amount asset_id
        = Ok (GrapheneObject "Asset"
                (Some [ ("amount", Int64 amount); ("asset_id", oid) ]))) /\
  (forall o,
      Asset amount asset_id = Ok o ->
      exists s i,
        ObjectId asset_id (Some "asset")
        = Ok (ObjectId_obj s 3 (Id i) asset_id) /\
        o = GrapheneObject "Asset"
              (Some [ ("amount", Int64 amount);
                      ("asset_id", ObjectId_obj s 3 (Id i) asset_id) ]) /\
        bytes o = (a <- struct_pack fmt_q amount ;;
                   x <- varint i ;; Ok (a ++ x))).
Proof.
  assert (Hshape : forall oid,
             ObjectId asset_id (Some "asset") = Ok oid ->
             exists s i, oid = ObjectId_obj s 3 (Id i) asset_id).
  { intros oid E. apply ObjectId_ok_iff in E.
    destruct E as (sp & tp & id & s & t & i & _ & _ & _ & _ & Hh & ->).
    apply (hint_names_type "asset" 3 t eq_refl) in Hh; [ | discriminate ].
    subst t. exists s, i. reflexivity. }
  unfold Asset. split; [ | split ].
  - intros e H. rewrite H. reflexivity.
  - intros oid E. destruct (Hshape oid E) as (s & i & Hoid).
    exists s, i. split; [ exact Hoid | ]. rewrite E. reflexivity.
  - intros o H.
    destruct (ObjectId asset_id (Some "asset")) as [oid |] eqn:E;
      [ | discriminate H ].
    cbn [bind] in H.
    destruct (Hshape oid eq_refl) as (s & i & ->).
    exists s, i. split; [ reflexivity | ].
    split; [ congruence | ].
    assert (Ho : o = GrapheneObject "Asset"
                       (Some [ ("amount", Int64 amount);
                               ("asset_id",
                                ObjectId_obj s 3 (Id i) asset_id) ]))
      by congruence.
    rewrite Ho, bytes_GrapheneObject, !fields_bytes_cons.
    change (field_bytes (Int64 amount)) with (struct_pack fmt_q amount).
    change (field_bytes (ObjectId_obj s 3 (Id i) asset_id)) with (varint i).
    destruct (struct_pack fmt_q amount); cbn [bind]; [ | reflexivity ].
    destruct (varint i); cbn [bind fields_bytes]; [ | reflexivity ].
    rewrite app_nil_r. reflexivity.
Qed.

(** X17.  A Transfer that is built has a sender and a receiver that are
    ids of type account (2).  On the wire it is the fee, the varints of
    the two account instances, the amount, the optional memo and the byte
    00 of the empty extensions, in that order; with a memo built without
    message the last two bytes are 00 00. *)
Theorem Transfer_wire (fee amount memo : value) (from to : text)
        (o : value) :
  Transfer fee from to amount memo = Ok o ->
  exists sf i st j,
    ObjectId from (Some "account") = Ok (ObjectId_obj sf 2 (Id i) from) /\
    ObjectId to (Some "account") = Ok (ObjectId_obj st 2 (Id j) to) /\
    bytes o = (f <- field_bytes fee ;;
               x <- varint i ;;
               y <- varint j ;;
               a <- field_bytes amount ;;
               m <- bytes (Optional memo) ;;
               Ok (f ++ x ++ y ++ a ++ m ++ [0])) /\
    (memo = GrapheneObject "Memo" None ->
     bytes o = (f <- field_bytes fee ;;
                x <- varint i ;;
                y <- varint j ;;
                a <- field_bytes amount ;;
                Ok (f ++ x ++ y ++ a ++ [0; 0]))).
Proof.
  unfold Transfer. intros H.
  destruct (ObjectId from (Some "account")) as [ofrom |] eqn:Ef;
    [ | discriminate H ].
  destruct (ObjectId to (Some "account")) as [oto |] eqn:Et;
    [ | discriminate H ].
  cbn [bind] in H.
  pose proof Ef as Ef'. apply ObjectId_ok_iff in Ef'.
  destruct Ef' as (? & ? & ? & sf & tf & i & _ & _ & _ & _ & Hhf & ->).
  apply (hint_names_type "account" 2 tf eq_refl) in Hhf; [ | discriminate ].
  pose proof Et as Et'. apply ObjectId_ok_iff in Et'.
  destruct Et' as (? & ? & ? & st & tt' & j & _ & _ & _ & _ & Hht & ->).
  apply (hint_names_type "account" 2 tt' eq_refl) in Hht; [ | discriminate ].
  subst tf tt'. exists sf, i, st, j.
  split; [ reflexivity | split; [ reflexivity | ] ].
  assert (Ho : o = GrapheneObject "Transfer"
                     (Some [ ("fee", fee);
                             ("from", ObjectId_obj sf 2 (Id i) from);
                             ("to", ObjectId_obj st 2 (Id j) to);
                             ("amount", amount);
                             ("memo", Optional memo);
                             ("extensions", Set_ []) ])) by congruence.
  assert (Hwire :
            bytes o = (f <- field_bytes fee ;;
                       x <- varint i ;;
                       y <- varint j ;;
                       a <- field_bytes amount ;;
                       m <- bytes (Optional memo) ;;
                       Ok (f ++ x ++ y ++ a ++ m ++ [0]))).
  { rewrite Ho, bytes_GrapheneObject, !fields_bytes_cons.
    change (field_bytes (ObjectId_obj sf 2 (Id i) from)) with (varint i).
    change (field_bytes (ObjectId_obj st 2 (Id j) to)) with (varint j).
    change (field_bytes (Optional memo)) with (bytes (Optional memo)).
    change (field_bytes (Set_ [])) with (@Ok bytestr [0]).
    destruct (field_bytes fee); cbn [bind]; [ | reflexivity ].
    destruct (varint i); cbn [bind]; [ | reflexivity ].
    destruct (varint j); cbn [bind]; [ | reflexivity ].
    destruct (field_bytes amount); cbn [bind]; [ | reflexivity ].
    destruct (bytes (Optional memo)); cbn [bind fields_bytes];
      [ | reflexivity ].
    reflexivity. }
  split; [ exact Hwire | ].
  intros ->. rewrite Hwire.
  change (bytes (Optional (GrapheneObject "Memo" None)))
    with (@Ok bytestr [0]).
  destruct (field_bytes fee); cbn [bind]; [ | reflexivity ].
  destruct (varint i); cbn [bind]; [ | reflexivity ].
  destruct (varint j); cbn [bind]; [ | reflexivity ].
  destruct (field_bytes amount); cbn [bind]; reflexivity.
Qed.

End ObjectsWire.

Lemma Optional_wire_example :
  bytes (fun _ => None) (Optional Void) = Ok [0] /\
  exists t, [1; 0] = 1 :: t.
Proof.
  destruct (Optional_wire (fun _ => None) Void) as (Hcases & _ & Hnested).
  split.
  - apply Hcases. left. split; reflexivity.
  - apply Hnested. reflexivity.
Defined.

Lemma ObjectId_wire_is_instance_example :
  exists s1 ty1 i1 s2 ty2 i2,
    ObjectId_obj 1 2 (Id 7) (lit "1.2.7") = ObjectId_obj s1 ty1 (Id i1) (lit "1.2.7") /\
    ObjectId_obj 2 5 (Id 7) (lit "2.5.7") = ObjectId_obj s2 ty2 (Id i2) (lit "2.5.7") /\
    (is_ok (bytes (fun _ => None) (ObjectId_obj 1 2 (Id 7) (lit "1.2.7")))
     = true <-> 0 <= i1) /\
    (i1 < 0 ->
     bytes (fun _ => None) (ObjectId_obj 1 2 (Id 7) (lit "1.2.7"))
     = Raise ValueError) /\
    (0 <= i1 -> 0 <= i2 ->
     (bytes (fun _ => None) (ObjectId_obj 1 2 (Id 7) (lit "1.2.7"))
      = bytes (fun _ => None) (ObjectId_obj 2 5 (Id 7) (lit "2.5.7"))
      <-> i1 = i2)).
Proof.
  apply (ObjectId_wire_is_instance (fun _ => None) (lit "1.2.7")
           (lit "2.5.7") (Some "account") None); reflexivity.
Defined.

Lemma Asset_wire_example :
  Asset 10 (lit "1.2.0") = Raise AssertionError /\
  Asset 10 (lit "1.3.0")
  = Ok (GrapheneObject "Asset"
          (Some [ ("amount", Int64 10);
                  ("asset_id", ObjectId_obj 1 3 (Id 0) (lit "1.3.0")) ])) /\
  (o <- Asset 10 (lit "1.3.0") ;; bytes (fun _ => None) o)
  = Ok [10; 0; 0; 0; 0; 0; 0; 0; 0].
Proof.
  destruct (Asset_wire (fun _ => None) 10 (lit "1.2.0")) as (Hraise & _).
  destruct (Asset_wire (fun _ => None) 10 (lit "1.3.0"))
    as (_ & Hbuilt & Hwire).
  split; [ apply Hraise; reflexivity | ].
  destruct (Hbuilt (ObjectId_obj 1 3 (Id 0) (lit "1.3.0")) eq_refl)
    as (s & i & _ & Hok).
  split; [ exact Hok | ].
  rewrite Hok. cbn [bind].
  destruct (Hwire _ Hok) as (s' & i' & Hid & _ & Hb).
  rewrite Hb.
  assert (Hi : i' = 0) by (vm_compute in Hid; congruence).
  rewrite Hi. reflexivity.
Defined.

Lemma Transfer_wire_example :
  (t <- Transfer (Uint64 10) (lit "1.2.0") (lit "1.2.129") (Uint64 5)
                 (GrapheneObject "Memo" None) ;;
   bytes (fun _ => None) t)
  = Ok [10; 0; 0; 0; 0; 0; 0; 0; 0; 129; 1; 5; 0; 0; 0; 0; 0; 0; 0; 0; 0].
Proof.
  destruct (Transfer (Uint64 10) (lit "1.2.0") (lit "1.2.129") (Uint64 5)
                     (GrapheneObject "Memo" None)) as [o | e] eqn:E;
    [ | vm_compute in E; discriminate E ].
  cbn [bind].
  destruct (Transfer_wire (fun _ => None) (Uint64 10) (Uint64 5)
              (GrapheneObject "Memo" None) (lit "1.2.0") (lit "1.2.129")
              o E) as (sf & i & st & j & Hf & Ht & _ & Hb).
  rewrite (Hb eq_refl).
  assert (Hi : i = 0) by (vm_compute in Hf; congruence).
  assert (Hj : j = 129) by (vm_compute in Ht; congruence).
  rewrite Hi, Hj. reflexivity.
Defined.

(** ** Points in time, byte strings and memos *)

(** X18.  A PointInTime encodes exactly when the time library parses its
    text (with "UTC" appended) to a number of seconds from 0 to 2^32 - 1:
    the encoding is then that number on four bytes, little-endian.  A text
    the library refuses gives the library's error, and a time before 1970
    or past the 32-bit range gives struct.error. *)
Theorem PointInTime_wire (timegm_strptime : text -> option Z) (d : text) :
  (forall b,
      bytes timegm_strptime (PointInTime d) = Ok b <->
      exists t, timegm_strptime (d ++ lit "UTC") = Some t /\
                0 <= t < 2 ^ 32 /\ b = le_bytes 4 t) /\
  (forall b,
      bytes timegm_strptime (PointInTime d) = Ok b ->
      List.length b = 4%nat /\
      timegm_strptime (d ++ lit "UTC") = Some (le_value b)) /\
  (timegm_strptime (d ++ lit "UTC") = None ->
   bytes timegm_strptime (PointInTime d) = Raise (LibraryError "time")) /\
  (forall t,
      timegm_strptime (d ++ lit "UTC") = Some t -> ~ 0 <= t < 2 ^ 32 ->
      bytes timegm_strptime (PointInTime d) = Raise StructError).
Proof.
  assert (Hpack : forall t b,
             struct_pack fmt_I t = Ok b <->
             0 <= t < 2 ^ 32 /\ b = le_bytes 4 t).
  { intros t b. unfold struct_pack.
    destruct ((0 <=? t) && (t <? 2 ^ 32)) eqn:E.
    - apply andb_prop in E. destruct E as [E1 E2].
      apply Z.leb_le in E1. apply Z.ltb_lt in E2.
      split; [ intros H; split; [ lia | congruence ] | ].
      intros [_ ->]. reflexivity.
    - split; [ intros H; discriminate H | ].
      intros [Ht _]. apply andb_false_iff in E.
      destruct E as [E | E];
        [ apply Z.leb_gt in E | apply Z.ltb_ge in E ]; lia. }
  assert (Hiff : forall b,
             bytes timegm_strptime (PointInTime d) = Ok b <->
             exists t, timegm_strptime (d ++ lit "UTC") = Some t /\
                       0 <= t < 2 ^ 32 /\ b = le_bytes 4 t).
  { intros b. rewrite bytes_PointInTime.
    destruct (timegm_strptime (d ++ lit "UTC")) as [t |]; cbn [ext bind].
    - rewrite Hpack. split.
      + intros [Ht Hb]. exists t. auto.
      + intros (t' & Ht' & Hr & Hb). injection Ht' as <-. auto.
    - split; [ intros H; discriminate H | ].
      intros (t & Ht & _). discriminate Ht. }
  split; [ exact Hiff | split; [ | split ] ].
  - intros b H. apply Hiff in H. destruct H as (t & Ht & Hr & ->).
    split; [ apply le_bytes_length | ].
    rewrite Ht. f_equal. symmetry.
    apply (proj1 (struct_pack_unsigned fmt_I t (le_bytes 4 t)
                    ltac:(discriminate)
                    (proj2 (Hpack t (le_bytes 4 t)) (conj Hr eq_refl)))).
  - intros H. rewrite bytes_PointInTime, H. reflexivity.
  - intros t Ht Hr. rewrite bytes_PointInTime, Ht. cbn [ext bind].
    apply (proj2 (struct_pack_range fmt_I t ltac:(discriminate))).
    exact Hr.
Qed.

Lemma PointInTime_wire_example :
  bytes toy_time (PointInTime (lit "1970-01-01T00:00:00")) = Ok [0; 0; 0; 0] /\
  bytes (fun _ => Some (2 ^ 32)) (PointInTime (lit "2106-02-07T06:28:16"))
  = Raise StructError.
Proof.
  split.
  - apply (proj1 (PointInTime_wire toy_time (lit "1970-01-01T00:00:00"))).
    exists 0. split; [ reflexivity | split; [ lia | reflexivity ] ].
  - apply (proj2 (proj2 (proj2 (PointInTime_wire (fun _ => Some (2 ^ 32))
                                  (lit "2106-02-07T06:28:16")))) (2 ^ 32));
      [ reflexivity | lia ].
Defined.

(** X19.  The length that Bytes writes before its data is the length it
    was given, not the length of the data: a reader decodes the declared
    length whatever follows.  A declared length of 0 counts as none and is
    replaced by the number of characters of the data, and a negative one
    makes the encoding raise ValueError. *)
Theorem Bytes_declared_length (timegm_strptime : text -> option Z)
        (d : text) (length : option Z) :
  let declared :=
    match length with
    | Some l => if l =? 0 then len d else l
    | None => len d
    end in
  (forall b,
      bytes timegm_strptime (Bytes d length) = Ok b ->
      exists l data,
        varint declared = Ok l /\ utf8 d = Ok data /\ b = l ++ data /\
        varintdecode (PyStr b) = Ok declared) /\
  bytes timegm_strptime (Bytes d (Some 0))
  = bytes timegm_strptime (Bytes d None) /\
  (declared < 0 ->
   bytes timegm_strptime (Bytes d length) = Raise ValueError).
Proof.
  intros declared.
  assert (E : bytes timegm_strptime (Bytes d length)
              = (l <- varint declared ;; b <- utf8 d ;; Ok (l ++ b))).
  { subst declared. unfold Bytes. destruct length as [l |];
      [ destruct (l =? 0) | ]; reflexivity. }
  split; [ | split; [ reflexivity | ] ].
  - intros b H. rewrite E in H.
    apply bind_ok in H. destruct H as (l & Hl & H).
    apply bind_ok in H. destruct H as (data & Hd & H).
    exists l, data. split; [ exact Hl | split; [ exact Hd | ] ].
    assert (Hb : b = l ++ data) by congruence.
    split; [ exact Hb | ]. rewrite Hb.
    unfold varintdecode. cbn [items].
    rewrite (varintdecode_loop_prefix declared l Hl).
    + rewrite Z.shiftl_0_r. reflexivity.
    + lia.
  - intros H. rewrite E, (varint_negative declared H). reflexivity.
Qed.

Lemma Bytes_declared_length_example :
  (exists l data,
      varint 300 = Ok l /\ utf8 (lit "ab") = Ok data /\
      [172; 2; 97; 98] = l ++ data /\
      varintdecode (PyStr [172; 2; 97; 98]) = Ok 300) /\
  bytes (fun _ => None) (Bytes (lit "ab") (Some (-1))) = Raise ValueError.
Proof.
  destruct (Bytes_declared_length (fun _ => None) (lit "ab") (Some 300))
    as (H & _ & _).
  destruct (Bytes_declared_length (fun _ => None) (lit "ab") (Some (-1)))
    as (_ & _ & Hneg).
  split; [ apply H; reflexivity | apply Hneg; reflexivity ].
Defined.

Section MemoProperties.

Variable PublicKey : text -> text -> option (bytestr * text).
Variable timegm_strptime : text -> option Z.


End MemoProperties.


(** ** The JSON rendering of a composite *)

Lemma update_fresh (d : list (string * json)) (name : string) (j : json) :
  ~ In name (keys d) -> update d name j = d ++ [(name, j)].
Proof.
  induction d as [| [k v] r IH]; intros H; [ reflexivity | ].
  cbn [update app]. cbn [keys map fst In] in H.
  destruct (String.eqb_spec name k) as [-> | Hk]; [ tauto | ].
  rewrite IH; [ reflexivity | ]. intros Hin. apply H. right. exact Hin.
Qed.

Lemma In_keys {V : Type} (name : string) (v : V) (d : list (string * V)) :
  In (name, v) d -> In name (keys d).
Proof. intros H. apply (in_map fst) in H. exact H. Qed.

Section JsonRendering.

Variable json_loads : text -> option json.
Variable json_dumps : json -> text.

Local Abbreviation str := (str json_loads json_dumps).
Local Abbreviation json_loop := (json_loop json_loads json_dumps).
Local Abbreviation GrapheneObject__json__ :=
  (GrapheneObject__json__ json_loads json_dumps).
Local Abbreviation json_entry := (json_entry json_loads).
Local Abbreviation renders := (renders json_loads json_dumps).

Lemma json_loop_shown (name : string) (v : value)
      (rest : list (string * value)) (d : list (string * json)) :
  skipped v = false ->
  json_loop ((name, v) :: rest) d =
  (s <- str v ;; json_loop rest (update d name (json_entry s))).
Proof.
  intros H. rewrite json_loop_cons, H. unfold JsonObj, json_entry.
  destruct (str v) as [s | e]; cbn [bind]; [ | reflexivity ].
  destruct (json_loads s); reflexivity.
Qed.

Lemma json_loop_skipped (name : string) (v : value)
      (rest : list (string * value)) (d : list (string * json)) :
  skipped v = true ->
  json_loop ((name, v) :: rest) d = json_loop rest d.
Proof. intros H. rewrite json_loop_cons, H. reflexivity. Qed.

(** The loop appends one entry per field it shows, in the order of the
    fields, when no name comes twice. *)
Lemma json_loop_entries (fs : list (string * value)) :
  forall d0 d,
    NoDup (keys d0 ++ keys fs) ->
    json_loop fs d0 = Ok d ->
    exists more,
      d = d0 ++ more /\
      keys more = keys (filter shown fs) /\
      forall name v,
        In (name, v) fs -> skipped v = false ->
        exists s, str v = Ok s /\ lookup name more = Some (json_entry s).
Proof.
  induction fs as [| [n v] r IH]; intros d0 d Hnd H.
  - cbn in H. exists []. rewrite app_nil_r.
    split; [ congruence | split; [ reflexivity | ] ].
    intros name v' [].
  - cbn [keys map fst] in Hnd. fold (keys r) in Hnd. fold (keys d0) in Hnd.
    pose proof (NoDup_remove_1 _ _ _ Hnd) as Hnd1.
    pose proof (NoDup_remove_2 _ _ _ Hnd) as Hn.
    destruct (skipped v) eqn:Es.
    + rewrite (json_loop_skipped n v r d0 Es) in H.
      destruct (IH d0 d Hnd1 H) as (more & Hd & Hk & Hall).
      exists more. split; [ exact Hd | ].
      split; [ cbn [filter]; unfold shown at 1; cbn [snd];
               rewrite Es; exact Hk | ].
      intros name v' [Hin | Hin] Hs; [ | apply Hall; assumption ].
      injection Hin as -> ->. congruence.
    + rewrite (json_loop_shown n v r d0 Es) in H.
      destruct (str v) as [s | e] eqn:Ev; cbn [bind] in H;
        [ | discriminate H ].
      rewrite update_fresh in H
        by (intros Hin; apply Hn; apply in_or_app; left; exact Hin).
      assert (Hnd' : NoDup (keys (d0 ++ [(n, json_entry s)]) ++ keys r)).
      { unfold keys at 1. rewrite map_app. cbn [map fst].
        rewrite <- app_assoc. exact Hnd. }
      destruct (IH _ d Hnd' H) as (more & Hd & Hk & Hall).
      exists ((n, json_entry s) :: more).
      split; [ rewrite Hd, <- app_assoc; reflexivity | ].
      split.
      * cbn [filter]. unfold shown at 1. cbn [snd negb]. rewrite Es.
        cbn [negb keys map fst]. f_equal. exact Hk.
      * intros name v' [Hin | Hin] Hs.
        -- injection Hin as -> ->. exists s. split; [ exact Ev | ].
           cbn [lookup]. rewrite String.eqb_refl. reflexivity.
        -- destruct (Hall name v' Hin Hs) as (s' & Hs' & Hl).
           exists s'. split; [ exact Hs' | ].
           cbn [lookup].
           destruct (String.eqb_spec name n) as [-> | Hne]; [ | exact Hl ].
           exfalso. apply Hn. apply in_or_app. right.
           apply (In_keys n v' r Hin).
Qed.

(** X21.  The JSON rendering of a composite whose field names are all
    different has one entry for each field that is not a skipped optional,
    in the order of the fields (the insertion order that a dict keeps);
    the entry of a field is the parsed text of
    its value or, when that text is no JSON, the text itself as a
    string. *)
Theorem json_entries (fs : list (string * value))
        (d : list (string * json)) :
  NoDup (keys fs) ->
  GrapheneObject__json__ (Some fs) = Ok d ->
  keys d = keys (filter shown fs) /\
  forall name v,
    In (name, v) fs -> skipped v = false ->
    exists s, str v = Ok s /\ lookup name d = Some (json_entry s).
Proof.
  intros Hnd H. unfold GrapheneObject__json__ in H.
  destruct (json_loop_entries fs [] d Hnd H) as (more & Hd & Hk & Hall).
  cbn [app] in Hd. subst more. split; [ exact Hk | exact Hall ].
Qed.

Lemma json_loop_defined (fs : list (string * value)) :
  forall d, is_ok (json_loop fs d) = true <-> Forall renders fs.
Proof.
  induction fs as [| [n v] r IH]; intros d.
  - split; [ constructor | reflexivity ].
  - destruct (skipped v) eqn:Es.
    + rewrite (json_loop_skipped n v r d Es), IH. split.
      * intros H. constructor; [ left; exact Es | exact H ].
      * intros H. inversion H. assumption.
    + rewrite (json_loop_shown n v r d Es). split.
      * intros H. destruct (str v) as [s | e] eqn:Ev; cbn [bind] in H;
          [ | discriminate H ].
        constructor; [ right; cbn [snd]; rewrite Ev; reflexivity | ].
        apply IH in H. exact H.
      * intros H. inversion H as [| ? ? [Hs | Hv] Hr]; subst;
          cbn [snd] in *; [ congruence | ].
        destruct (str v) as [s | e]; [ | discriminate Hv ].
        cbn [bind]. apply IH. exact Hr.
Qed.

Lemma json_loop_first_error (pre : list (string * value)) :
  forall (name : string) (v : value) (post : list (string * value))
         (e : exn) (d : list (string * json)),
    Forall renders pre -> skipped v = false -> str v = Raise e ->
    json_loop (pre ++ (name, v) :: post) d = Raise e.
Proof.
  induction pre as [| [n u] r IH]; intros name v post e d Hpre Hs Hv.
  - cbn [app]. rewrite (json_loop_shown name v post d Hs), Hv. reflexivity.
  - inversion Hpre as [| ? ? Hu Hr]; subst. cbn [app].
    destruct (skipped u) eqn:Eu.
    + rewrite (json_loop_skipped n u _ d Eu). apply IH; assumption.
    + rewrite (json_loop_shown n u _ d Eu).
      destruct Hu as [Hu | Hu]; cbn [snd] in Hu; [ congruence | ].
      destruct (str u) as [s | e']; [ | discriminate Hu ].
      cbn [bind]. apply IH; assumption.
Qed.

(** X22.  A composite has a JSON rendering exactly when every field that
    is not a skipped optional has a text; otherwise rendering it, or
    taking its str, raises the error of the first field without one.  The
    str of a String raises TypeError and that of a Static_variant raises
    AttributeError, whatever they hold, so a composite with such a field
    has no JSON rendering at all. *)
Theorem json_rendering_defined (cls : string)
        (fs : list (string * value)) :
  (is_ok (GrapheneObject__json__ (Some fs)) = true <-> Forall renders fs) /\
  (forall pre name v post e,
      fs = pre ++ (name, v) :: post ->
      Forall renders pre -> skipped v = false -> str v = Raise e ->
      GrapheneObject__json__ (Some fs) = Raise e /\
      str (GrapheneObject cls (Some fs)) = Raise e) /\
  (forall name v,
      In (name, v) fs ->
      (exists s, v = String s) \/ (exists d t, v = Static_variant d t) ->
      is_ok (str (GrapheneObject cls (Some fs))) = false).
Proof.
  split; [ apply json_loop_defined | split ].
  - intros pre name v post e -> Hpre Hs Hv.
    assert (E : GrapheneObject__json__ (Some (pre ++ (name, v) :: post))
                = Raise e)
      by (apply json_loop_first_error; assumption).
    split; [ exact E | ]. rewrite str_GrapheneObject, E. reflexivity.
  - intros name v Hin Hv. rewrite str_GrapheneObject.
    destruct (GrapheneObject__json__ (Some fs)) as [d |] eqn:E;
      [ | reflexivity ].
    exfalso.
    assert (Hok : is_ok (GrapheneObject__json__ (Some fs)) = true)
      by (rewrite E; reflexivity).
    apply json_loop_defined in Hok. rewrite Forall_forall in Hok.
    specialize (Hok _ Hin). cbn [snd] in Hok.
    destruct Hv as [(s & ->) | (d' & t & ->)];
      destruct Hok as [Hok | Hok]; discriminate Hok.
Qed.

End JsonRendering.

Lemma json_entries_example :
  keys [("amount", JString (lit "7")); ("note", JString (lit "hi"))]
  = keys (filter shown
            [("amount", Int64 7); ("memo", Optional (Uint8 1));
             ("note", PyText (lit "hi"))]) /\
  forall name v,
    In (name, v) [("amount", Int64 7); ("memo", Optional (Uint8 1));
                  ("note", PyText (lit "hi"))] ->
    skipped v = false ->
    exists s, str (fun _ => None) (fun _ => []) v = Ok s /\
              lookup name [("amount", JString (lit "7"));
                           ("note", JString (lit "hi"))]
              = Some (json_entry (fun _ => None) s).
Proof.
  apply (json_entries (fun _ => None) (fun _ => [])).
  - repeat constructor; cbn; intuition discriminate.
  - reflexivity.
Defined.

Lemma json_rendering_defined_example :
  is_ok (str (fun _ => None) (fun _ => [])
             (GrapheneObject "Account"
                (Some [("id", Uint8 1); ("name", String (lit "alice"))])))
  = false.
Proof.
  apply (proj2 (proj2 (json_rendering_defined (fun _ => None) (fun _ => [])
                         "Account"
                         [("id", Uint8 1); ("name", String (lit "alice"))]))
               "name" (String (lit "alice"))).
  - right. left. reflexivity.
  - left. exists (lit "alice"). reflexivity.
Defined.

(** ** The keys that sign *)

Lemma bytes_eqb_eq (a : bytestr) : forall b, bytes_eqb a b = true <-> a = b.
Proof.
  induction a as [| x a' IH]; intros [| y b']; cbn [bytes_eqb];
    try (split; [ discriminate | discriminate ]);
    [ split; reflexivity | ].
  rewrite andb_true_iff, Z.eqb_eq, IH. split.
  - intros [-> ->]. reflexivity.
  - intros H. injection H as -> ->. split; reflexivity.
Qed.

Lemma mem_In (x : text) (l : list text) : mem x l = true <-> In x l.
Proof.
  induction l as [| y r IH]; cbn [mem In]; [ split; [ discriminate | tauto ] | ].
  rewrite orb_true_iff, bytes_eqb_eq, IH. split; intros [H | H]; auto.
Qed.

Lemma unique_app (a : list text) :
  forall b seen, unique (a ++ b) seen = unique b (unique a seen).
Proof.
  induction a as [| x r IH]; intros b seen; [ reflexivity | ].
  cbn [app unique]. destruct (mem x seen); apply IH.
Qed.

Lemma unique_members (items : list text) :
  forall seen,
    NoDup seen ->
    NoDup (unique items seen) /\
    forall x, In x (unique items seen) <-> In x seen \/ In x items.
Proof.
  induction items as [| item r IH]; intros seen Hnd; cbn [unique].
  - split; [ exact Hnd | ]. intros x. cbn [In]. tauto.
  - destruct (mem item seen) eqn:E.
    + destruct (IH seen Hnd) as [H1 H2]. split; [ exact H1 | ].
      intros x. rewrite H2. cbn [In]. apply mem_In in E.
      split; [ tauto | ]. intros [H | [<- | H]]; auto.
    + assert (Hnot : ~ In item seen)
        by (intros H; apply mem_In in H; congruence).
      assert (Hnd' : NoDup (seen ++ [item])).
      { apply NoDup_app; [ exact Hnd | repeat constructor; intros [] | ].
        intros x Hx [<- | []]. exact (Hnot Hx). }
      destruct (IH _ Hnd') as [H1 H2]. split; [ exact H1 | ].
      intros x. rewrite H2, in_app_iff. cbn [In]. tauto.
Qed.

Lemma unique_NoDup (items : list text) :
  forall seen, NoDup (seen ++ items) -> unique items seen = seen ++ items.
Proof.
  induction items as [| item r IH]; intros seen H; cbn [unique].
  - rewrite app_nil_r. reflexivity.
  - destruct (mem item seen) eqn:E.
    + exfalso. apply mem_In in E. apply NoDup_remove_2 in H.
      apply H. apply in_or_app. left. exact E.
    + rewrite IH; rewrite <- app_assoc; [ reflexivity | exact H ].
Qed.

(** X23.  The keys that sign are the keys given, each once, in the order
    in which they first appear: the list has no duplicate and the same
    members as the list given, a key already seen changes nothing and a
    new one is added at the end.  A list without duplicates is kept as it
    is, and the list of the keys that sign is one. *)
Theorem unique_keys (items : list text) :
  NoDup (unique items []) /\
  (forall x, In x (unique items []) <-> In x items) /\
  (forall x,
      unique (items ++ [x]) [] =
      if mem x (unique items []) then unique items []
      else unique items [] ++ [x]) /\
  (List.length (unique items []) <= List.length items)%nat /\
  (NoDup items -> unique items [] = items) /\
  unique (unique items []) [] = unique items [].
Proof.
  destruct (unique_members items [] (NoDup_nil _)) as [Hnd Hin].
  split; [ exact Hnd | ].
  split; [ intros x; rewrite Hin; cbn [In]; tauto | ].
  split; [ intros x; rewrite unique_app; reflexivity | ].
  split.
  - apply NoDup_incl_length; [ exact Hnd | ].
    intros x Hx. apply Hin in Hx. destruct Hx as [[] | Hx]. exact Hx.
  - split.
    + intros H. apply (unique_NoDup items []). exact H.
    + apply (unique_NoDup (unique items []) []). exact Hnd.
Qed.

Lemma unique_keys_example :
  unique [[5]; [5]; [6]] [] = [[5]; [6]] /\
  unique [[5]; [6]] [] = [[5]; [6]].
Proof.
  split.
  - reflexivity.
  - apply (proj1 (proj2 (proj2 (proj2 (proj2 (unique_keys [[5]; [6]])))))).
    repeat constructor; cbn; intuition discriminate.
Defined.

(** ** What sign does to the transaction *)

Lemma lookup_set_item_other (d : list (string * value)) (k k' : string)
      (v : value) :
  k' <> k -> lookup k' (set_item d k v) = lookup k' d.
Proof.
  intros Hk. induction d as [| [n u] r IH]; cbn [set_item lookup].
  - destruct (String.eqb_spec k' k); [ contradiction | reflexivity ].
  - destruct (String.eqb_spec k n) as [-> | Hn]; cbn [lookup].
    + destruct (String.eqb_spec k' n); [ contradiction | reflexivity ].
    + destruct (String.eqb k' n); [ reflexivity | exact IH ].
Qed.

Lemma keys_set_item (d : list (string * value)) (k : string) (v : value) :
  In k (keys d) -> keys (set_item d k v) = keys d.
Proof.
  induction d as [| [n u] r IH]; intros H; [ contradiction | ].
  cbn [set_item]. destruct (String.eqb_spec k n) as [-> | Hn];
    [ reflexivity | ].
  cbn [keys map fst] in *. f_equal. apply IH.
  destruct H as [H | H]; [ congruence | exact H ].
Qed.

Lemma length_concat_65 (blobs : list bytestr) :
  Forall (fun blob => List.length blob = 65%nat) blobs ->
  len (List.concat blobs) = 65 * len blobs.
Proof.
  unfold len. induction 1 as [| blob r Hb Hr IH]; [ reflexivity | ].
  cbn [List.concat List.length]. rewrite length_app, Hb. lia.
Qed.

Section SignFields.

Context {L : Libraries}.
Variable timegm_strptime : text -> option Z.

Local Abbreviation sign := (sign timegm_strptime).
Local Abbreviation wire := (wire timegm_strptime).

(** What a call of sign that returns has done. *)
Lemma sign_returned (fuel : nat) (self : Signed_Transaction)
      (wifkeys : list text) (chain : chain_arg) (w : entropy)
      (self' : Signed_Transaction) (w' : entropy) :
  sign fuel self wifkeys chain w = (Returned, self', w') ->
  exists chain_params chain_id h b sigs,
    chain_params_of chain = Ok chain_params /\
    lookup "chain_id" chain_params = Some chain_id /\
    unhexlify chain_id = Ok h /\
    wire self = Ok b /\
    sign_keys fuel (sha256 (h ++ b)) (unique wifkeys []) [] w
    = (Some (Ok sigs), w') /\
    self' = {| data := set_item (data self) "signatures" (Array sigs);
               privkeys := Some (unique wifkeys []);
               chainid := Some chain_id;
               message := Some (h ++ b);
               digest := Some (sha256 (h ++ b)) |}.
Proof.
  unfold sign. intros H.
  destruct (chain_params_of chain) as [chain_params | e] eqn:Ec;
    [ | discriminate H ].
  destruct (lookup "chain_id" chain_params) as [chain_id |] eqn:Ei;
    [ | discriminate H ].
  destruct (unhexlify chain_id) as [h | e] eqn:Eh; cbn [bind] in H;
    [ | discriminate H ].
  match type of H with
  | context [wire ?s] => change (wire s) with (wire self) in H
  end.
  destruct (wire self) as [b | e] eqn:Ew; cbn [bind] in H;
    [ | discriminate H ].
  cbn [data privkeys chainid message digest] in H.
  destruct (sign_keys fuel (sha256 (h ++ b)) (unique wifkeys []) [] w)
    as [[[sigs | e] |] w1] eqn:Ek; try discriminate H.
  injection H as <- <-.
  exists chain_params, chain_id, h, b, sigs. repeat split; assumption.
Qed.

(** A call of sign that does not return leaves the fields as they were. *)
Lemma sign_not_returned (fuel : nat) (self : Signed_Transaction)
      (wifkeys : list text) (chain : chain_arg) (w : entropy) :
  fst (fst (sign fuel self wifkeys chain w)) <> Returned ->
  data (snd (fst (sign fuel self wifkeys chain w))) = data self.
Proof.
  unfold sign.
  destruct (chain_params_of chain) as [chain_params | e];
    [ | reflexivity ].
  destruct (lookup "chain_id" chain_params) as [chain_id |];
    [ | reflexivity ].
  match goal with
  | |- context [match ?x with Ok _ => _ | Raise _ => _ end] =>
      destruct x as [m' | e]
  end; [ | reflexivity ].
  cbn [data privkeys chainid message digest].
  destruct (sign_keys fuel (sha256 m') (unique wifkeys []) [] w)
    as [[[sigs | e] |] w1]; cbn [fst snd data]; intros H;
    [ contradiction | reflexivity | reflexivity ].
Qed.

(** X24.  sign writes to one field only: whatever the outcome, every
    field other than signatures holds after the call what it held before,
    and a transaction that has a signatures field keeps its fields in
    their order; when sign does not return, because it raised or is
    still searching, the signatures are untouched too. *)
Theorem sign_writes_only_signatures (fuel : nat) (self : Signed_Transaction)
        (wifkeys : list text) (chain : chain_arg) (w : entropy) :
  let after := snd (fst (sign fuel self wifkeys chain w)) in
  (fst (fst (sign fuel self wifkeys chain w)) <> Returned ->
   data after = data self) /\
  (forall k, k <> "signatures" ->
             lookup k (data after) = lookup k (data self)) /\
  (In "signatures" (keys (data self)) ->
   keys (data after) = keys (data self)).
Proof.
  intros after. subst after.
  split; [ apply sign_not_returned | ].
  destruct (sign fuel self wifkeys chain w) as [[o self'] w'] eqn:E.
  assert (Hcases : (exists sigs, data self'
                                 = set_item (data self) "signatures"
                                            (Array sigs))
                   \/ data self' = data self).
  { destruct o.
    - left. apply sign_returned in E.
      destruct E as (? & ? & ? & ? & sigs & _ & _ & _ & _ & _ & ->).
      exists sigs. reflexivity.
    - right.
      pose proof (sign_not_returned fuel self wifkeys chain w) as H.
      rewrite E in H. apply H. discriminate.
    - right.
      pose proof (sign_not_returned fuel self wifkeys chain w) as H.
      rewrite E in H. apply H. discriminate. }
  cbn [fst snd]. split.
  - intros k Hk. destruct Hcases as [(sigs & ->) | ->]; [ | reflexivity ].
    apply lookup_set_item_other. exact Hk.
  - intros Hin. destruct Hcases as [(sigs & ->) | ->]; [ | reflexivity ].
    apply keys_set_item. exact Hin.
Qed.

Lemma join_signatures (blobs : list bytestr) :
  join timegm_strptime (map Signature blobs) = Ok (List.concat blobs).
Proof.
  induction blobs as [| blob r IH]; [ reflexivity | ].
  cbn [map join bytes List.concat]. cbn [map] in IH.
  change ((fix join (xs : list value) : result bytestr :=
             match xs with
             | [] => Ok []
             | a :: r0 =>
                 x <- bytes timegm_strptime a ;;
                 y <- join r0 ;; Ok (x ++ y)
             end) (map Signature r))
    with (join timegm_strptime (map Signature r)).
  rewrite IH. reflexivity.
Qed.

(** The wire of a transaction made by the constructor, once signatures
    have been put in place of the placeholder. *)
Lemma signed_wire (refNum refPrefix : Z) (expiration : text)
      (operations : list value) (blobs : list bytestr) (b : bytestr) :
  wire (Signed_Transaction_init refNum refPrefix expiration operations)
  = Ok b ->
  bytes timegm_strptime
        (GrapheneObject "Signed_Transaction"
           (Some (set_item
                    (Signed_Transaction_data refNum refPrefix expiration
                                             operations)
                    "signatures" (Array (map Signature blobs)))))
  = (count <- varint (len blobs) ;; Ok (b ++ count ++ List.concat blobs)).
Proof.
  unfold wire, Signed_Transaction_init. cbn [data].
  change (set_item
            (Signed_Transaction_data refNum refPrefix expiration operations)
            "signatures" (Array (map Signature blobs)))
    with ([("ref_block_num", Uint16 refNum);
           ("ref_block_prefix", Uint32 refPrefix);
           ("expiration", PointInTime expiration);
           ("operations", Array operations);
           ("extensions", Set_ [])]
            ++ [("signatures", Array (map Signature blobs))]).
  change (Signed_Transaction_data refNum refPrefix expiration operations)
    with ([("ref_block_num", Uint16 refNum);
           ("ref_block_prefix", Uint32 refPrefix);
           ("expiration", PointInTime expiration);
           ("operations", Array operations);
           ("extensions", Set_ [])] ++ [("signatures", Void)]).
  rewrite !bytes_GrapheneObject, !fields_bytes_app.
  destruct (fields_bytes timegm_strptime _ []) as [b5 | e]; cbn [bind];
    [ | intros H; discriminate H ].
  cbn [fields_bytes field_bytes bytes bind]. rewrite app_nil_r.
  intros H. assert (Hb : b5 = b) by congruence. subst b5.
  unfold Array.
  change (field_bytes timegm_strptime
            (Array_obj (map Signature blobs)
                       (Varint32 (len (map Signature blobs)))))
    with (l <- varint (len (map Signature blobs)) ;;
          j <- join timegm_strptime (map Signature blobs) ;;
          Ok (l ++ j)).
  rewrite join_signatures. unfold len. rewrite length_map.
  destruct (varint (Z.of_nat (List.length blobs))); reflexivity.
Qed.

(** What a call of sign that returns has made of a transaction fresh from
    its constructor. *)
Lemma sign_fresh_returned (fuel : nat) (refNum refPrefix : Z)
      (expiration : text) (operations : list value) (wifkeys : list text)
      (chain : chain_arg) (w : entropy) (self' : Signed_Transaction)
      (w' : entropy) :
  sign fuel (Signed_Transaction_init refNum refPrefix expiration operations)
       wifkeys chain w = (Returned, self', w') ->
  exists h b count blobs,
    wire (Signed_Transaction_init refNum refPrefix expiration operations)
    = Ok b /\
    message self' = Some (h ++ b) /\
    lookup "signatures" (data self') = Some (Array (map Signature blobs)) /\
    varint (len blobs) = Ok count /\
    wire self' = Ok (b ++ count ++ List.concat blobs) /\
    List.length blobs = List.length (unique wifkeys []) /\
    len (List.concat blobs) = 65 * len blobs.
Proof.
  intros H. apply sign_returned in H.
  destruct H as (cp & chain_id & h & b & sigs & _ & _ & _ & Hw & Hk & ->).
  apply (sign_keys_signatures timegm_strptime) in Hk.
  destruct Hk as (blobs & -> & Hlen & Hall). cbn [app] in *.
  assert (Hnn : 0 <= len blobs) by (unfold len; lia).
  destruct (varint_total (len blobs) Hnn) as (c & cs & Hc).
  exists h, b, (c :: cs), blobs. cbn [data message].
  split; [ exact Hw | split; [ reflexivity | ] ].
  split; [ apply lookup_set_item | ].
  split; [ exact Hc | ].
  split.
  - unfold wire at 1. cbn [data].
    unfold Signed_Transaction_init at 1. cbn [data].
    rewrite (signed_wire refNum refPrefix expiration operations blobs b Hw).
    rewrite Hc. reflexivity.
  - split; [ exact Hlen | ].
    apply length_concat_65.
    apply Forall_impl with (2 := Hall). intros blob [Hb _]. exact Hb.
Qed.

(** X25.  When sign returns on a transaction fresh from its constructor,
    the wire form of the signed transaction is the wire form that was
    hashed, followed by the varint of the number of signatures and the
    signatures themselves, 65 bytes each, one for every distinct key. *)
Theorem signed_wire_is_signed_message_then_signatures (fuel : nat)
        (refNum refPrefix : Z) (expiration : text) (operations : list value)
        (wifkeys : list text) (chain : chain_arg) (w : entropy)
        (self' : Signed_Transaction) (w' : entropy) :
  sign fuel (Signed_Transaction_init refNum refPrefix expiration operations)
       wifkeys chain w = (Returned, self', w') ->
  exists h b count blobs,
    wire (Signed_Transaction_init refNum refPrefix expiration operations)
    = Ok b /\
    message self' = Some (h ++ b) /\
    lookup "signatures" (data self') = Some (Array (map Signature blobs)) /\
    varint (len blobs) = Ok count /\
    wire self' = Ok (b ++ count ++ List.concat blobs) /\
    List.length blobs = List.length (unique wifkeys []) /\
    len (List.concat blobs) = 65 * len blobs.
Proof. exact (sign_fresh_returned fuel refNum refPrefix expiration operations
                wifkeys chain w self' w'). Qed.

(** X26.  Signing a signed transaction again does not add signatures to
    the ones it has: the second call hashes the wire form with the first
    signatures in it, and when it returns the signatures field holds the
    signatures of the second call only, one for every distinct key of that
    call. *)
Theorem sign_again_replaces_signatures (fuel1 fuel2 : nat)
        (refNum refPrefix : Z) (expiration : text) (operations : list value)
        (keys1 keys2 : list text) (chain1 chain2 : chain_arg)
        (w1 w1' w2 w2' : entropy) (self1 self2 : Signed_Transaction) :
  sign fuel1 (Signed_Transaction_init refNum refPrefix expiration operations)
       keys1 chain1 w1 = (Returned, self1, w1') ->
  sign fuel2 self1 keys2 chain2 w2 = (Returned, self2, w2') ->
  exists h2 b count1 blobs1 blobs2,
    wire (Signed_Transaction_init refNum refPrefix expiration operations)
    = Ok b /\
    lookup "signatures" (data self1) = Some (Array (map Signature blobs1)) /\
    varint (len blobs1) = Ok count1 /\
    message self2 = Some (h2 ++ b ++ count1 ++ List.concat blobs1) /\
    lookup "signatures" (data self2) = Some (Array (map Signature blobs2)) /\
    List.length blobs2 = List.length (unique keys2 []).
Proof.
  intros H1 H2. apply sign_fresh_returned in H1.
  destruct H1 as (h1 & b & count1 & blobs1 & Hb & _ & Hs1 & Hc & Hw1 & _).
  apply sign_returned in H2.
  destruct H2 as (cp & chain_id & h2 & b1 & sigs & _ & _ & _ & Hw & Hk & ->).
  apply (sign_keys_signatures timegm_strptime) in Hk.
  destruct Hk as (blobs2 & -> & Hlen & _). cbn [app].
  assert (Hb1 : b1 = b ++ count1 ++ List.concat blobs1) by congruence.
  subst b1.
  exists h2, b, count1, blobs1, blobs2. cbn [data message].
  split; [ exact Hb | split; [ exact Hs1 | split; [ exact Hc | ] ] ].
  split; [ reflexivity | ].
  split; [ apply lookup_set_item | exact Hlen ].
Qed.

(** X27.  The chain id of the default chain "BTS" is empty, so a
    signature made under the default is over the hash of the wire form
    alone and names no chain; under "GPH" the 32 bytes of the chain id
    come first, and under a mapping the bytes of its chain_id. *)
Theorem default_chain_signs_bare_wire (fuel : nat)
        (self : Signed_Transaction) (wifkeys : list text) (w : entropy)
        (b : bytestr) :
  wire self = Ok b ->
  let after chain := snd (fst (sign fuel self wifkeys chain w)) in
  message (after default_chain) = Some b /\
  digest (after default_chain) = Some (sha256 b) /\
  (exists h, List.length h = 32%nat /\
             message (after (ChainName "GPH")) = Some (h ++ b)) /\
  (forall params chain_id h,
      lookup "chain_id" params = Some chain_id ->
      unhexlify chain_id = Ok h ->
      message (after (ChainDict params)) = Some (h ++ b) /\
      digest (after (ChainDict params)) = Some (sha256 (h ++ b))).
Proof.
  intros Hw after. subst after. cbn beta.
  split; [ | split; [ | split ] ].
  - apply (sign_message timegm_strptime fuel self wifkeys default_chain w
             [ ("chain_id", lit ""); ("core_symbol", lit "");
               ("prefix", lit "") ] (lit "") [] b
             eq_refl eq_refl eq_refl Hw).
  - apply (sign_message timegm_strptime fuel self wifkeys default_chain w
             [ ("chain_id", lit ""); ("core_symbol", lit "");
               ("prefix", lit "") ] (lit "") [] b
             eq_refl eq_refl eq_refl Hw).
  - assert (Hh : exists h,
               unhexlify
                 (lit "b8d1603965b3eb1acba27e62ff59f74efa3154d43a4188d381088ac7cdf35539")
               = Ok h /\ List.length h = 32%nat)
      by (eexists; split; [ vm_compute; reflexivity | reflexivity ]).
    destruct Hh as (h & Hh & Hlen). exists h. split; [ exact Hlen | ].
    apply (sign_message timegm_strptime fuel self wifkeys (ChainName "GPH") w
             [ ("chain_id",
                lit "b8d1603965b3eb1acba27e62ff59f74efa3154d43a4188d381088ac7cdf35539");
               ("core_symbol", lit "CORE"); ("prefix", lit "GPH") ]
             _ h b eq_refl eq_refl Hh Hw).
  - intros params chain_id h Hp Hh.
    destruct (sign_message timegm_strptime fuel self wifkeys
                (ChainDict params) w params chain_id h b
                eq_refl Hp Hh Hw) as (Hm & Hd & _).
    split; [ exact Hm | exact Hd ].
Qed.

(** X28.  When the key recovered at an index fails its verification
    ([recover_public_key] returns None) before any index has matched,
    recoverPubkeyParameter does not go on to the next index: it raises
    AttributeError, and so does the search for the signature, on the
    first attempt whose DER lengths pass the test. *)
Theorem unverified_recovery_raises_AttributeError (digest signature : bytestr)
        (pubkey : VerifyingKey) (i : Z) :
  In i [0; 1; 2; 3] ->
  (forall j, In j [0; 1; 2; 3] -> j < i ->
             key_matches digest signature pubkey j = Ok false) ->
  recover_public_key digest signature i = Ok None ->
  recoverPubkeyParameter digest signature pubkey = Raise AttributeError /\
  forall (sk : SigningKey) (w w' : entropy) (sigder : bytestr) (r s : Z)
         (fuel : nat),
    pubkey = get_verifying_key sk ->
    sign_digest sk digest w = (Some sigder, w') ->
    sigdecode_der sigder = Some (r, s) ->
    sigencode_string r s = Ok signature ->
    index sigder 3 = Ok 32 ->
    index sigder (5 + 32) = Ok 32 ->
    search (S fuel) sk digest w = (Some (Raise AttributeError), w').
Proof.
  intros Hin Hbefore Hnone.
  assert (Hi : key_matches digest signature pubkey i = Raise AttributeError)
    by (unfold key_matches; rewrite Hnone; reflexivity).
  assert (E : recoverPubkeyParameter digest signature pubkey
              = Raise AttributeError).
  { unfold recoverPubkeyParameter. cbn [In] in Hin.
    destruct Hin as [<- | [<- | [<- | [<- | []]]]];
      repeat (rewrite recover_loop_cons;
              first [ rewrite Hi; reflexivity
                    | rewrite Hbefore by (cbn [In]; auto; lia);
                      cbn [bind] ]). }
  split; [ exact E | ].
  intros sk w w' sigder r s fuel -> Hw Hd He HR HS.
  rewrite search_step.
  rewrite (attempt_canonical sk digest w w' sigder r s signature
             Hw Hd He HR HS), E.
  reflexivity.
Qed.

End SignFields.

Lemma sign_writes_only_signatures_example :
  lookup "operations" (data (snd (fst toy_run)))
  = lookup "operations" (data toy_tx) /\
  keys (data (snd (fst toy_run))) = keys (data toy_tx).
Proof.
  destruct (sign_writes_only_signatures (L := toy) toy_time 5 toy_tx
              toy_keys (ChainName "GPH") toy_entropy) as (_ & Hk & Hkeys).
  split.
  - apply Hk. discriminate.
  - apply Hkeys. cbn. tauto.
Defined.

Lemma signed_wire_example :
  exists h b count blobs,
    wire toy_time toy_tx = Ok b /\
    message (snd (fst toy_run)) = Some (h ++ b) /\
    lookup "signatures" (data (snd (fst toy_run)))
    = Some (Array (map Signature blobs)) /\
    varint (len blobs) = Ok count /\
    wire toy_time (snd (fst toy_run))
    = Ok (b ++ count ++ List.concat blobs) /\
    List.length blobs = List.length (unique toy_keys []) /\
    len (List.concat blobs) = 65 * len blobs.
Proof.
  assert (H : toy_run = (Returned, snd (fst toy_run), snd toy_run))
    by (vm_compute; reflexivity).
  exact (signed_wire_is_signed_message_then_signatures (L := toy) toy_time 5
           1 2 (lit "2016-01-01T00:00:00") [] toy_keys (ChainName "GPH")
           toy_entropy (snd (fst toy_run)) (snd toy_run) H).
Defined.

Lemma sign_again_example :
  exists h2 b count1 blobs1 blobs2,
    wire toy_time toy_tx = Ok b /\
    lookup "signatures" (data (snd (fst toy_run)))
    = Some (Array (map Signature blobs1)) /\
    varint (len blobs1) = Ok count1 /\
    message (snd (fst toy_rerun))
    = Some (h2 ++ b ++ count1 ++ List.concat blobs1) /\
    lookup "signatures" (data (snd (fst toy_rerun)))
    = Some (Array (map Signature blobs2)) /\
    List.length blobs2 = List.length (unique [[7]] []).
Proof.
  assert (H1 : toy_run = (Returned, snd (fst toy_run), snd toy_run))
    by (vm_compute; reflexivity).
  assert (H2 : toy_rerun = (Returned, snd (fst toy_rerun), snd toy_rerun))
    by (vm_compute; reflexivity).
  exact (sign_again_replaces_signatures (L := toy) toy_time 5 5
           1 2 (lit "2016-01-01T00:00:00") [] toy_keys [[7]]
           (ChainName "GPH") (ChainName "GPH")
           toy_entropy (snd toy_run) [toy_der 5] (snd toy_rerun)
           (snd (fst toy_run)) (snd (fst toy_rerun)) H1 H2).
Defined.

Lemma default_chain_example :
  message (snd (fst (sign (L := toy) toy_time 5 toy_tx toy_keys
                          default_chain toy_entropy)))
  = Some toy_wire.
Proof.
  apply (proj1 (default_chain_signs_bare_wire (L := toy) toy_time 5 toy_tx
                  toy_keys toy_entropy toy_wire eq_refl)).
Defined.

Lemma unverified_recovery_example :
  recoverPubkeyParameter (L := toy_unverified) [1] (toy_signature 100) [5]
  = Raise AttributeError.
Proof.
  apply (unverified_recovery_raises_AttributeError (L := toy_unverified)
           [1] (toy_signature 100) [5] 0).
  - left. reflexivity.
  - intros j [<- | [<- | [<- | [<- | []]]]] Hlt; lia.
  - vm_compute. reflexivity.
Defined.
